(** * ChannelMappingPP: a shallow embedding of the channel-mapping post-processor

    The development follows [yt_dlp_plugins/postprocessor/channel_mapping.py].

    - Python values are a small JSON-like datatype; a dictionary that is
      iterated (the mapping document) is an insertion-ordered association
      list, the metadata record of an item is a finite map.
    - Exceptions are values of an error type.  The pure lookup engine
      returns a result or an exception; everything that touches the host,
      the file system or the plugin instance runs in a state-and-exception
      monad in which the effects made before an exception persist.
    - The operating system and the serialisation libraries are an
      interface ([Platform]); what the proofs need of them is stated as
      contracts ([PlatformLaws]).  A small concrete platform instantiates
      both and lets the model run on examples.

    The definitions come first, the properties after them. *)

From Stdlib Require Import ZArith Ascii.
From stdpp Require Import base option list gmap strings.

Set Warnings "-register-all".

(** ** Python values *)

Module Py.

(** The values a JSON or YAML document can hold (floating-point numbers
    play no role in the plugin and are left out).  A [VDict] keeps its
    entries in insertion order, which is the order [dict.items] yields. *)
Inductive value : Type :=
| VNone
| VBool (b : bool)
| VInt (n : Z)
| VStr (s : string)
| VList (items : list value)
| VDict (items : list (string * value)).

(** Exceptions the plugin raises itself or inherits from the operations
    it calls. *)
Inductive exn : Type :=
| AttributeError
| TypeError
| KeyError (key : string)
| OSError (path : string)
| ValueError (msg : string)
| NotImplementedError (msg : string)
| PostProcessingError (msg : string)
| IOError (msg : string) (cause : exn).

Definition result (A : Type) : Type := exn + A.

#[global] Instance result_ret : MRet result := λ A x, inr x.
#[global] Instance result_bind : MBind result :=
  λ A B f m, match m with inl e => inl e | inr x => f x end.

(** Truth value of an object, as tested by [if x:] and [not x]. *)
Definition truthy (v : value) : bool :=
  match v with
  | VNone => false
  | VBool b => b
  | VInt n => negb (n =? 0)%Z
  | VStr s => negb (bool_decide (s = ""))
  | VList items => match items with [] => false | _ :: _ => true end
  | VDict items => match items with [] => false | _ :: _ => true end
  end.

(** Lists and dictionaries cannot be used as dictionary keys. *)
Definition hashable (v : value) : bool :=
  match v with
  | VList _ | VDict _ => false
  | _ => true
  end.

(** First binding of a key in an ordered dictionary. *)
Fixpoint dict_lookup (k : string) (d : list (string * value)) : option value :=
  match d with
  | [] => None
  | (k', v) :: rest => if bool_decide (k = k') then Some v else dict_lookup k rest
  end.

(** [d.get(k, dflt)]: an object that is not a dictionary has no [get]
    attribute; an unhashable key is a [TypeError]; the keys of a document
    are strings, so any other hashable key is simply absent. *)
Definition get (d : value) (k : value) (dflt : value) : result value :=
  match d with
  | VDict items =>
      match k with
      | VStr s => inr (default dflt (dict_lookup s items))
      | VList _ | VDict _ => inl TypeError
      | _ => inr dflt
      end
  | _ => inl AttributeError
  end.

(** [d.items()]. *)
Definition items (d : value) : result (list (string * value)) :=
  match d with
  | VDict entries => inr entries
  | _ => inl AttributeError
  end.

(** [a == b]: booleans compare as the integers 0 and 1, lists compare
    element by element, and dictionaries compare as maps, whatever the
    order of their entries. *)
Fixpoint eqb (a b : value) {struct a} : bool :=
  match a, b with
  | VNone, VNone => true
  | VBool x, VBool y => bool_decide (x = y)
  | VBool x, VInt n | VInt n, VBool x => (n =? (if x then 1 else 0))%Z
  | VInt n, VInt m => (n =? m)%Z
  | VStr s, VStr t => bool_decide (s = t)
  | VList xs, VList ys =>
      (fix go (xs ys : list value) {struct xs} : bool :=
         match xs, ys with
         | [], [] => true
         | x :: xs', y :: ys' => eqb x y && go xs' ys'
         | _, _ => false
         end) xs ys
  | VDict d1, VDict d2 =>
      bool_decide (length d1 = length d2)
      && (fix go (d : list (string * value)) {struct d} : bool :=
            match d with
            | [] => true
            | (k, x) :: d' =>
                match dict_lookup k d2 with
                | Some y => eqb x y
                | None => false
                end && go d'
            end) d1
  | _, _ => false
  end.

End Py.

Import Py.

(** ** Lookup engine *)

(** The loop of [find_field] over the entries of the category's ["field"]
    dictionary. *)
Fixpoint find_field_loop (original_channel : value) (fields : list (string * value))
  : result (string * value) :=
  match fields with
  | [] => inr ("", VStr "")
  | (field, field_data) :: rest =>
      new_field_name ← get field_data original_channel (VStr "");
      if truthy new_field_name then inr (field, new_field_name)
      else find_field_loop original_channel rest
  end.

Definition find_field (original_channel : value) (category_dict : value)
  : result (string * value) :=
  fields ← get category_dict (VStr "field") (VDict []) ≫= items;
  find_field_loop original_channel fields.

(** The loop of [find_category] over the entries of [self._mapping]. *)
Fixpoint find_category_loop (original_channel default : value)
    (categories : list (string * value)) : result (value * string * value) :=
  match categories with
  | [] => inr (VDict [], "", default)
  | (category, category_data) :: rest =>
      '(field, new_field_name) ← find_field original_channel category_data;
      if truthy new_field_name then inr (category_data, field, new_field_name)
      else find_category_loop original_channel default rest
  end.

Definition find_category (mapping : value) (original_channel default : value)
  : result (value * string * value) :=
  categories ← items mapping;
  find_category_loop original_channel default categories.

(** *** Shape of a mapping document *)

(** The field entries of a category: the entries of its ["field"]
    dictionary, none when the key is absent. *)
Definition category_fields (category_data : value) : list (string * value) :=
  match category_data with
  | VDict entries =>
      match dict_lookup "field" entries with
      | Some (VDict fields) => fields
      | _ => []
      end
  | _ => []
  end.

Definition is_dict (v : value) : bool :=
  match v with VDict _ => true | _ => false end.

(** A category entry is a dictionary whose ["field"] entry, when present,
    is a dictionary of dictionaries.  The leaves are not constrained. *)
Definition is_category_entry (category_data : value) : bool :=
  match category_data with
  | VDict entries =>
      match dict_lookup "field" entries with
      | None => true
      | Some (VDict fields) => forallb (λ p, is_dict p.2) fields
      | Some _ => false
      end
  | _ => false
  end.

Definition is_mapping_document (mapping : value) : bool :=
  match mapping with
  | VDict categories => forallb (λ p, is_category_entry p.2) categories
  | _ => false
  end.

(** [field_maps v field_data]: the inner dictionary of a field has [v] as
    a key with a non-empty (truthy) mapped value. *)
Definition field_maps (v : value) (field_data : value) : bool :=
  match field_data, v with
  | VDict m, VStr s =>
      match dict_lookup s m with Some w => truthy w | None => false end
  | _, _ => false
  end.

(** [category_maps v category_data]: some field of the category maps [v]. *)
Definition category_maps (v : value) (category_data : value) : bool :=
  existsb (λ p, field_maps v p.2) (category_fields category_data).

(** [document_maps v mapping]: some category of the document maps [v]. *)
Definition document_maps (v : value) (mapping : value) : bool :=
  match mapping with
  | VDict categories => existsb (λ p, category_maps v p.2) categories
  | _ => false
  end.

(** ** The plugin's constants *)

Definition MAPPING_CONFIG_TEMPLATE : value :=
  VDict [
    ("uncategorized", VDict [
      ("field", VDict [
        ("channel", VDict [
          ("MIT OpenCourseWare", VStr "OCW - MIT");
          ("<CHANNEL NAME>", VStr "<NEW CHANNEL NAME>")]);
        ("<FIELD NAME>", VDict [])])]);
    ("<CATEGORY>", VDict [
      ("home", VStr "<TARGET LOCATION>");
      ("temp", VStr "<TEMP LOCATION>");
      ("field", VDict [
        ("<FIELD NAME>", VDict [
          ("<ORIGINAL FIELD VALUE>", VStr "<NEW FIELD VALUE>")])])])].

Inductive ConfigTypeEnum : Type := JSON | YAML.

(** The double-quote character, for the messages that quote a name. *)
Definition dquote : string := String (ascii_of_nat 34) EmptyString.

Definition quoted (s : string) : string := dquote +:+ s +:+ dquote.

(** [self.__class__.__name__[:-2]]: the class name without its ["PP"]
    suffix, the key under which the host registers the plugin. *)
Definition class_name : string := "ChannelMappingPP".

Definition this_class_name : string :=
  String.substring 0 (String.length class_name - 2) class_name.

Definition supported_pp_positions : list string :=
  ["pre_process"; "after_filter"; "video"].

(** [needle in haystack] on strings. *)
Fixpoint contains (needle haystack : string) : bool :=
  String.prefix needle haystack
  || match haystack with
     | EmptyString => false
     | String _ rest => contains needle rest
     end.

(** ** The environment of the plugin *)

(** The operating-system and serialisation functions the plugin calls.
    The file system is a state that [makedirs] and [write_file] change.
    A failing call raises and yields no file system: what it may have
    left on disk (parents already created, a file opened and truncated)
    is outside the model, in which the state then keeps the file system
    it had. *)
Class Platform : Type := {
  fs_state : Type;
  file_content : Type;
  (** [os.path.expanduser], [os.path.expandvars] and [os.path.abspath],
      for the environment and working directory of the process. *)
  expanduser : string → string;
  expandvars : string → string;
  abspath : string → string;
  (** [os.path.exists], [os.path.isdir], [os.path.realpath],
      [os.path.dirname], [os.path.splitext(p)[1].lower()]. *)
  path_exists : fs_state → string → bool;
  isdir : fs_state → string → bool;
  realpath : fs_state → string → string;
  dirname : string → string;
  splitext_lower : string → string;
  (** [os.makedirs(p, exist_ok=True)]. *)
  makedirs : fs_state → string → result fs_state;
  (** [open(p, "w")] followed by writing the content, and
      [open(p, "r")] followed by reading it all. *)
  write_file : fs_state → string → file_content → result fs_state;
  read_file : fs_state → string → result file_content;
  (** Whether [import yaml] succeeded. *)
  yaml_available : bool;
  (** [json.dump] / [yaml.dump] with their [indent], and
      [json.load] / [yaml.safe_load]. *)
  dump : ConfigTypeEnum → value → nat → file_content;
  load : ConfigTypeEnum → file_content → result value;
}.

(** The contracts of the operating system the path rewriter and the
    configuration loader rely on. *)
Class PlatformLaws (P : Platform) : Prop := {
  (** [exist_ok=True]: an existing directory is accepted as it is. *)
  makedirs_existing : ∀ s q, isdir s q = true → makedirs s q = inr s;
  (** After a successful call the directory exists. *)
  makedirs_creates : ∀ s q s', makedirs s q = inr s' → isdir s' q = true;
  (** Creating the directory a path resolves to does not change what
      the path resolves to. *)
  realpath_makedirs : ∀ s p s',
    makedirs s (realpath s p) = inr s' → realpath s' p = realpath s p;
  (** A file that was written reads back as what was written. *)
  read_write_file : ∀ s p c s', write_file s p c = inr s' → read_file s' p = inr c;
}.

(** A document in which no dictionary repeats a key, as every Python
    dictionary is. *)
Fixpoint unique_keys (v : value) : bool :=
  match v with
  | VList items =>
      (fix go (items : list value) : bool :=
         match items with
         | [] => true
         | x :: rest => unique_keys x && go rest
         end) items
  | VDict entries =>
      bool_decide (NoDup entries.*1)
      && (fix go (entries : list (string * value)) : bool :=
            match entries with
            | [] => true
            | (_, x) :: rest => unique_keys x && go rest
            end) entries
  | _ => true
  end.

(** The contract of the serialisation libraries: with a format that is
    at hand, a document that was dumped loads, as a document equal to it
    in the sense of [==]; the order of the keys may differ. *)
Class CodecLaws (P : Platform) : Prop := {
  load_dump : ∀ file_type data indent,
    file_type = JSON ∨ yaml_available = true →
    unique_keys data = true →
    ∃ loaded, load file_type (dump file_type data indent) = inr loaded
              ∧ Py.eqb loaded data = true;
}.

(** A registration descriptor of the host's [postprocessors] list; the
    host stores [key] and [when] as strings, either may be missing. *)
Record pp_descriptor : Type := PPDescriptor {
  pp_key : option string;
  pp_when : option string;
}.

(** The post-processors the plugin hands to [add_post_processor].  The
    only one is the cleanup step; its [keys] is the very list object
    [self.mapped_fields], so it carries no copy of the keys. *)
Inductive post_processor : Type := PostCleanupPP.

(** What the plugin prints: the notice of [to_screen] (original and new
    channel name) and the messages of [report_warning]. *)
Inductive output : Type :=
| to_screen (original_channel new_channel_name : value)
| report_warning (msg : string).

(** The metadata record of an item. *)
Abbreviation information := (gmap string value).

Section plugin.
Context {P : Platform}.

(** The host's parameter store and registration hook, the file system,
    and the attributes of the plugin instance. *)
Record state : Type := State {
  filesystem : fs_state;
  (** [params["outtmpl"]["default"]], [params["paths"]],
      [params["postprocessors"]] *)
  outtmpl_default : option string;
  paths : option (gmap string string);
  postprocessors : option (list pp_descriptor);
  (** the calls of [add_post_processor], with their [when] *)
  added : list (post_processor * string);
  printed : list output;
  (** [self._mapping], [self.mapped_fields] *)
  _mapping : value;
  mapped_fields : list string;
}.

Definition set_filesystem (s : fs_state) (st : state) : state :=
  State s (outtmpl_default st) (paths st) (postprocessors st) (added st)
        (printed st) (_mapping st) (mapped_fields st).
Definition set_paths (ps : gmap string string) (st : state) : state :=
  State (filesystem st) (outtmpl_default st) (Some ps) (postprocessors st) (added st)
        (printed st) (_mapping st) (mapped_fields st).
Definition add_post_processor (pp : post_processor) (when : string) (st : state) : state :=
  State (filesystem st) (outtmpl_default st) (paths st) (postprocessors st)
        (added st ++ [(pp, when)]) (printed st) (_mapping st) (mapped_fields st).
Definition print (o : output) (st : state) : state :=
  State (filesystem st) (outtmpl_default st) (paths st) (postprocessors st) (added st)
        (printed st ++ [o]) (_mapping st) (mapped_fields st).
Definition append_mapped_field (name : string) (st : state) : state :=
  State (filesystem st) (outtmpl_default st) (paths st) (postprocessors st) (added st)
        (printed st) (_mapping st) (mapped_fields st ++ [name]).
Definition set_instance (mapping : value) (fields : list string) (st : state) : state :=
  State (filesystem st) (outtmpl_default st) (paths st) (postprocessors st) (added st)
        (printed st) mapping fields.

(** *** State and exceptions

    A computation takes the state and returns its result or the raised
    exception, with the state as its effects left it: what was mutated
    before an exception stays mutated. *)
Definition M (A : Type) : Type := state → result A * state.

Definition ret {A} (x : A) : M A := λ st, (inr x, st).
Definition raise {A} (e : exn) : M A := λ st, (inl e, st).
Definition bind {A B} (m : M A) (k : A → M B) : M B :=
  λ st, match m st with
        | (inr x, st') => k x st'
        | (inl e, st') => (inl e, st')
        end.
Definition lift {A} (r : result A) : M A := λ st, (r, st).
Definition modify (f : state → state) : M unit := λ st, (inr (), f st).
Definition gets {A} (f : state → A) : M A := λ st, (inr (f st), st).

(** [try: m except Exception as exc: handler exc] *)
Definition try_except {A} (m : M A) (handler : exn → M A) : M A :=
  λ st, match m st with
        | (inr x, st') => (inr x, st')
        | (inl e, st') => handler e st'
        end.

End plugin.

Notation "'let*' x ':=' m 'in' k" := (bind m (λ x, k))
  (at level 10, x pattern, m at level 100, k at level 200,
   format "'[v' 'let*'  x  ':='  m  'in' '/' k ']'").
Notation "m ';;' k" := (bind m (λ _, k))
  (at level 100, k at level 200, right associativity).

(** ** The plugin *)

Section operations.
Context {P : Platform}.

(** *** Configuration loader *)

Definition _save_file (data : value) (file_path : string) (file_type : ConfigTypeEnum)
  : M unit :=
  let* s := gets filesystem in
  let* s' := lift (write_file s file_path (dump file_type data 4)) in
  modify (set_filesystem s').

Definition _load_file (file_path : string) (file_type : ConfigTypeEnum) : M value :=
  let* s := gets filesystem in
  let* content := lift (read_file s file_path) in
  lift (load file_type content).

Definition check_config_type (config_path : string) : result ConfigTypeEnum :=
  let ext := splitext_lower config_path in
  if bool_decide (ext ∈ [".json"]) then inr JSON
  else if bool_decide (ext ∈ [".yaml"; ".yml"]) && yaml_available then inr YAML
  else inl (ValueError ("Unsupported file type: " +:+ ext)).

Definition write_mapping_template (config_path : string) : M unit :=
  (let* s := gets filesystem in
   let* s' := lift (makedirs s (dirname config_path)) in
   modify (set_filesystem s'));;
  try_except
    (let* file_type := lift (check_config_type config_path) in
     _save_file MAPPING_CONFIG_TEMPLATE config_path file_type;;
     modify (print (report_warning
       ("Mapping file not found. Created a template mapping file at: " +:+ config_path))))
    (λ exc, raise (IOError ("Can't write mapping file: " +:+ config_path) exc)).

Definition load_mapping (config_path : string) : M value :=
  (let* s := gets filesystem in
   if negb (path_exists s config_path) then write_mapping_template config_path
   else ret ());;
  let* file_type := lift (check_config_type config_path) in
  _load_file config_path file_type.

Definition _normalize_path (path : string) : string :=
  if bool_decide (path = "") then path
  else abspath (expandvars (expanduser path)).

(** The constructor, given the [config] keyword argument if there is
    one: it loads the mapping and starts with no injected field. *)
Definition __init__ (config : option string) : M unit :=
  let _mapping_path := default "" config in
  let _mapping_path := _normalize_path _mapping_path in
  let* mapping := load_mapping _mapping_path in
  modify (set_instance mapping []).

(** *** Gate *)

Definition is_mapping_used (st : state) : bool :=
  let file_template := default "" (outtmpl_default st) in
  contains "%(mapped_channel)s" file_template.

(** *** Path rewriter *)

Definition change_path (category : value) (dir_type : string) : M unit :=
  let* new_location := lift (get category (VStr dir_type) (VStr "")) in
  if negb (truthy new_location) then ret ()
  else
    match new_location with
    | VStr location =>
        let* s := gets filesystem in
        let new_location := realpath s location in
        let* s' := lift (makedirs s new_location) in
        modify (set_filesystem s');;
        let* ps := gets paths in
        match ps with
        | Some ps => modify (set_paths (<[dir_type := new_location]> ps))
        | None => raise (KeyError "paths")
        end
    | _ => raise TypeError
    end.

(** *** Dispatch *)

Definition mapping_before_download (info : information)
  : M (list string * information) :=
  let original_channel := default (VStr "") (info !! "channel") in
  let* mapping := gets _mapping in
  let* (category, field, new_channel_name) :=
    lift (find_category mapping original_channel original_channel) in
  change_path category "home";;
  change_path category "temp";;
  modify (print (to_screen original_channel new_channel_name));;
  let mapped_field_name :=
    "mapped_" +:+ (if bool_decide (field = "") then "channel" else field) in
  let info := <[mapped_field_name := new_channel_name]> info in
  modify (append_mapped_field mapped_field_name);;
  ret ([], info).

Definition not_implemented_message (tested : string) : string :=
  "Not implemented yet. Consider set " +:+ this_class_name +:+ " at "
  +:+ quoted "pre_process" +:+ " instead (" +:+ tested
  +:+ " are tested working) e.g. --use-postprocessor "
  +:+ quoted (this_class_name +:+ ":when=pre_process").

Definition mapping_after_download (info : information)
  : M (list string * information) :=
  raise (NotImplementedError (not_implemented_message
    (quoted "pre_process" +:+ ", " +:+ quoted "after_filter" +:+ " and "
     +:+ quoted "video"))).

Definition main_processing (info : information) : M (list string * information) :=
  if negb (truthy (default (VBool false) (info !! "filepath")))
  then mapping_before_download info
  else
    try_except (mapping_after_download info)
      (λ exc, match exc with
              | NotImplementedError _ =>
                  raise (PostProcessingError (not_implemented_message
                    (quoted "after_filter" +:+ " and " +:+ quoted "video")))
              | _ => raise exc
              end).

(** *** Lifecycle guard *)

(** The loop that locates the plugin in the registration list: the
    index of the first descriptor whose key is the plugin's, or -1. *)
Fixpoint find_pp_position (i : Z) (pp_list : list pp_descriptor) : Z :=
  match pp_list with
  | [] => -1
  | pp :: rest =>
      if bool_decide (pp_key pp = Some this_class_name) then i
      else find_pp_position (i + 1) rest
  end.

Definition pp_exec_position_of (pp_list : list pp_descriptor) : string :=
  let pp_position := find_pp_position 0 pp_list in
  let pp_exec_info :=
    if bool_decide (0 ≤ pp_position)%Z
    then default (PPDescriptor None None) (pp_list !! Z.to_nat pp_position)
    else PPDescriptor None None in
  default "post_process" (pp_when pp_exec_info).

(** The declared execution stage as the specification words it: the
    [when] of the first descriptor registered under the plugin's key,
    ["post_process"] when there is none or it declares no stage. *)
Definition declared_stage (pp_list : list pp_descriptor) : string :=
  match List.find (λ pp, bool_decide (pp_key pp = Some this_class_name)) pp_list with
  | Some pp => default "post_process" (pp_when pp)
  | None => "post_process"
  end.

Definition invalid_when_message (pp_exec_position : string) : string :=
  "Invalid " +:+ quoted "when" +:+ " value " +:+ quoted pp_exec_position
  +:+ " for post-processor " +:+ quoted this_class_name
  +:+ " (should be: " +:+ String.concat ", " supported_pp_positions +:+ ")".

Definition check_pp_position : M unit :=
  let* pps := gets postprocessors in
  let pp_list := default [] pps in
  let pp_exec_position := pp_exec_position_of pp_list in
  if negb (bool_decide (pp_exec_position ∈ supported_pp_positions))
  then raise (ValueError (invalid_when_message pp_exec_position))
  else ret ().

(** *** Top-level run and the cleanup step *)

(** The body of the [try] block of [run]: the lifecycle guard, then the
    dispatch. *)
Definition guarded_processing (info : information) : M (list string * information) :=
  check_pp_position;;
  main_processing info.

(** [try: ... except Exception: pass finally: add_post_processor(...)]:
    on an exception [deletable] and [information] keep the values they
    had before the block. *)
Definition run (info : information) : M (list string * information) :=
  let deletable : list string := [] in
  let* used := gets is_mapping_used in
  if negb used then ret (deletable, info)
  else
    let* r := try_except (guarded_processing info) (λ _, ret (deletable, info)) in
    modify (add_post_processor PostCleanupPP "after_video");;
    ret r.

(** [PostCleanupPP.run]: [for key in keys: information.pop(key, None)]. *)
Definition PostCleanupPP_run (keys : list string) (info : information)
  : list string * information :=
  ([], foldl (λ info key, delete key info) info keys).

(** Running a scheduled post-processor: the cleanup step reads the keys
    from the list it shares with the plugin instance. *)
Definition run_post_processor (pp : post_processor) (info : information)
  : M (list string * information) :=
  match pp with
  | PostCleanupPP =>
      let* keys := gets mapped_fields in
      ret (PostCleanupPP_run keys info)
  end.

End operations.

(** ** A small platform

    A concrete file system on which the model can be run: the set of
    directories and the files with their contents.  A file holds the
    document that was dumped into it together with the format; paths are
    resolved without symbolic links, relative ones against [/cwd]. *)

Module ListFS.

Record fs : Type := FS {
  dirs : list string;
  files : list (string * (ConfigTypeEnum * value));
}.

Fixpoint lookup_file (p : string) (fl : list (string * (ConfigTypeEnum * value)))
  : option (ConfigTypeEnum * value) :=
  match fl with
  | [] => None
  | (p', c) :: rest => if bool_decide (p = p') then Some c else lookup_file p rest
  end.

Definition file_lookup (p : string) (s : fs) : option (ConfigTypeEnum * value) :=
  lookup_file p (files s).

Definition is_Some_b {A} (o : option A) : bool :=
  match o with Some _ => true | None => false end.

Definition is_dir (s : fs) (p : string) : bool := bool_decide (p ∈ dirs s).

Definition exists_ (s : fs) (p : string) : bool :=
  is_dir s p || is_Some_b (file_lookup p s).

Definition real_path (s : fs) (p : string) : string :=
  if String.prefix "/" p then p else "/cwd/" +:+ p.

Definition expand_user (p : string) : string :=
  match p with
  | String c rest =>
      if bool_decide (c = "~"%char) && (String.prefix "/" rest || bool_decide (rest = ""))
      then "/home/user" +:+ rest else p
  | EmptyString => p
  end.

(** The part of a reversed path from its first separator on. *)
Fixpoint from_slash (rev_path : list ascii) : list ascii :=
  match rev_path with
  | [] => []
  | c :: rest => if bool_decide (c = "/"%char) then rev_path else from_slash rest
  end.

Fixpoint strip_slashes (rev_path : list ascii) : list ascii :=
  match rev_path with
  | [] => []
  | c :: rest => if bool_decide (c = "/"%char) then strip_slashes rest else rev_path
  end.

(** The head of a path: up to its last separator, without trailing
    separators unless it consists of separators only. *)
Definition dir_name (p : string) : string :=
  let head := from_slash (rev (String.list_ascii_of_string p)) in
  String.string_of_list_ascii
    (rev (match strip_slashes head with [] => head | stripped => stripped end)).

(** The reversed extension of a reversed path: up to the first dot,
    empty when a separator comes first. *)
Fixpoint rev_extension (rev_path : list ascii) : option (list ascii) :=
  match rev_path with
  | [] => None
  | c :: rest =>
      if bool_decide (c = "."%char) then Some [c]
      else if bool_decide (c = "/"%char) then None
      else (λ e, c :: e) <$> rev_extension rest
  end.

Definition lower (c : ascii) : ascii :=
  let n := nat_of_ascii c in
  if (65 <=? n)%nat && (n <=? 90)%nat then ascii_of_nat (n + 32) else c.

Definition ext_lower (p : string) : string :=
  match rev_extension (rev (String.list_ascii_of_string p)) with
  | Some e => String.string_of_list_ascii (map lower (rev e))
  | None => ""
  end.

Definition make_dirs (s : fs) (q : string) : result fs :=
  if is_dir s q then inr s
  else if bool_decide (q = "") || is_Some_b (file_lookup q s)
  then inl (OSError q)
  else inr (FS (q :: dirs s) (files s)).

Definition write (s : fs) (p : string) (c : ConfigTypeEnum * value) : result fs :=
  if is_dir s p || negb (is_dir s (dir_name p)) then inl (OSError p)
  else inr (FS (dirs s) ((p, c) :: files s)).

Definition read (s : fs) (p : string) : result (ConfigTypeEnum * value) :=
  match file_lookup p s with
  | Some c => inr c
  | None => inl (OSError p)
  end.

Definition parse (file_type : ConfigTypeEnum) (c : ConfigTypeEnum * value) : result value :=
  match file_type, c.1 with
  | JSON, JSON | YAML, YAML => inr c.2
  | _, _ => inl (ValueError "malformed document")
  end.

#[export] Instance platform : Platform := {|
  expanduser := expand_user;
  expandvars := λ p, p;
  abspath := real_path (FS [] []);
  fs_state := fs;
  file_content := ConfigTypeEnum * value;
  path_exists := exists_;
  isdir := is_dir;
  realpath := real_path;
  dirname := dir_name;
  splitext_lower := ext_lower;
  makedirs := make_dirs;
  write_file := write;
  read_file := read;
  yaml_available := true;
  dump := λ file_type data _, (file_type, data);
  load := parse;
|}.

Definition empty : fs := FS ["/"] [].

End ListFS.

(** ** Example data *)

Module Examples.
Import ListFS.

(** The same channel mapped differently by two categories. *)
Definition first_category : value :=
  VDict [("home", VStr "/media/lectures");
         ("field", VDict [("channel", VDict [("MIT OpenCourseWare", VStr "OCW - MIT")])])].

Definition second_category : value :=
  VDict [("home", VStr "/media/misc");
         ("field", VDict [("channel", VDict [("MIT OpenCourseWare", VStr "MIT");
                                             ("Computerphile", VStr "CP")])])].

Definition two_categories : value :=
  VDict [("lectures", first_category); ("misc", second_category)].

(** A host whose output template uses the mapped channel and that
    registered the plugin at [pre_process]. *)
Definition host : state :=
  State ListFS.empty (Some "%(mapped_channel)s/%(title)s.%(ext)s") (Some ∅)
        (Some [PPDescriptor (Some "ChannelMapping") (Some "pre_process")])
        [] [] two_categories [].

(** The same host with an output template without the placeholder. *)
Definition plain_host : state :=
  State ListFS.empty (Some "%(channel)s/%(title)s.%(ext)s") (Some ∅)
        (Some [PPDescriptor (Some "ChannelMapping") (Some "pre_process")])
        [] [] two_categories [].

(** The same host with the plugin left at the default stage. *)
Definition late_host : state :=
  State ListFS.empty (Some "%(mapped_channel)s/%(title)s.%(ext)s") (Some ∅)
        (Some [PPDescriptor (Some "FFmpegMetadata") (Some "pre_process");
               PPDescriptor (Some "ChannelMapping") None])
        [] [] two_categories [].

Definition video : information :=
  {[ "channel" := VStr "Numberphile"; "title" := VStr "Primes" ]}.

Definition lecture : information :=
  {[ "channel" := VStr "MIT OpenCourseWare"; "title" := VStr "Lecture 1" ]}.

(** The record of an item after its transfer, and a record whose
    [filepath] is present but empty. *)
Definition downloaded : information :=
  {[ "channel" := VStr "Numberphile"; "filepath" := VStr "/media/Primes.mp4" ]}.

Definition empty_filepath : information :=
  {[ "channel" := VStr "Numberphile"; "filepath" := VStr "" ]}.

(** The record of the specification's cleanup example. *)
Definition with_scratch : information :=
  {[ "channel" := VStr "X"; "mapped_channel" := VStr "Y"; "other" := VInt 1 ]}.

End Examples.

(** Further hosts and records, for the properties beyond the claims. *)

Module Scenarios.
Import ListFS.

(** A host on which the plugin was registered twice, first at
    [video], then at the default stage. *)
Definition twice_registered : state :=
  State ListFS.empty (Some "%(mapped_channel)s/%(title)s.%(ext)s") (Some ∅)
        (Some [PPDescriptor (Some "FFmpegMetadata") (Some "post_process");
               PPDescriptor (Some "ChannelMapping") (Some "video");
               PPDescriptor (Some "ChannelMapping") None])
        [] [] Examples.two_categories [].

(** The second category of the template, which names both directories. *)
Definition template_category : value :=
  VDict [("home", VStr "<TARGET LOCATION>");
         ("temp", VStr "<TEMP LOCATION>");
         ("field", VDict [("<FIELD NAME>",
                           VDict [("<ORIGINAL FIELD VALUE>", VStr "<NEW FIELD VALUE>")])])].

(** A host whose parameter store has no [paths] entry. *)
Definition no_paths_host : state :=
  State ListFS.empty (Some "%(mapped_channel)s/%(title)s.%(ext)s") None
        (Some [PPDescriptor (Some "ChannelMapping") (Some "pre_process")])
        [] [] Examples.two_categories [].

(** A host that has already mapped one item. *)
Definition used_host : state :=
  State ListFS.empty (Some "%(mapped_channel)s/%(title)s.%(ext)s") (Some ∅)
        (Some [PPDescriptor (Some "ChannelMapping") (Some "pre_process")])
        [(PostCleanupPP, "after_video")] [] Examples.two_categories ["mapped_channel"].

(** A host on whose disk a mapping file exists, before the plugin is
    constructed. *)
Definition configured_host : state :=
  State (ListFS.FS ["/etc"; "/"] [("/etc/mapping.yaml", (YAML, Examples.two_categories))])
        (Some "%(mapped_channel)s/%(title)s.%(ext)s") (Some ∅)
        (Some [PPDescriptor (Some "ChannelMapping") (Some "pre_process")])
        [] [] VNone [].

End Scenarios.

(** ** Properties of the lookup engine *)

Section lookup.
Implicit Types (v w default : value) (fields categories : list (string * value)).

Lemma get_dict_hashable field_data v :
  is_dict field_data = true → hashable v = true →
  ∃ w, get field_data v (VStr "") = inr w ∧ truthy w = field_maps v field_data.
Proof.
  destruct field_data as [| | | | |m]; try discriminate. intros _ Hv.
  destruct v as [| | |s| |]; try discriminate; simpl; eauto.
  destruct (dict_lookup s m); simpl; eauto.
Qed.

Lemma get_ok_hashable field_data v w :
  is_dict field_data = true → get field_data v (VStr "") = inr w → hashable v = true.
Proof.
  destruct field_data; try discriminate. intros _.
  destruct v; simpl; try done.
Qed.

Lemma find_field_loop_miss v fields :
  hashable v = true →
  forallb (λ p, is_dict p.2) fields = true →
  existsb (λ p, field_maps v p.2) fields = false →
  find_field_loop v fields = inr ("", VStr "").
Proof.
  intros Hv. induction fields as [|[field field_data] rest IH]; simpl; [done|].
  intros [Hd Hrest]%andb_true_iff [Hm Hmiss]%orb_false_iff.
  destruct (get_dict_hashable field_data v Hd Hv) as (w & -> & Hw). simpl.
  rewrite Hw, Hm. by apply IH.
Qed.

Lemma find_field_loop_hit v fpre field field_data fpost w :
  hashable v = true →
  forallb (λ p, is_dict p.2) fpre = true →
  existsb (λ p, field_maps v p.2) fpre = false →
  get field_data v (VStr "") = inr w → truthy w = true →
  find_field_loop v (fpre ++ (field, field_data) :: fpost) = inr (field, w).
Proof.
  intros Hv Hd Hmiss Hget Hw. induction fpre as [|[f' fd'] rest IH]; simpl.
  - rewrite Hget. simpl. by rewrite Hw.
  - simpl in Hd, Hmiss.
    apply andb_true_iff in Hd as [Hd Hrest]. apply orb_false_iff in Hmiss as [Hm Hmiss].
    destruct (get_dict_hashable fd' v Hd Hv) as (w' & -> & Hw'). simpl.
    rewrite Hw', Hm. by apply IH.
Qed.

(** On a category entry, [find_field] runs its loop over [category_fields]. *)
Lemma find_field_unfold v category_data :
  is_category_entry category_data = true →
  find_field v category_data = find_field_loop v (category_fields category_data)
  ∧ forallb (λ p, is_dict p.2) (category_fields category_data) = true.
Proof.
  destruct category_data as [| | | | |entries]; try discriminate.
  unfold find_field, category_fields. simpl.
  destruct (dict_lookup "field" entries) as [[| | | | |fields]|]; try discriminate; simpl; done.
Qed.

Lemma find_field_miss v category_data :
  hashable v = true →
  is_category_entry category_data = true →
  category_maps v category_data = false →
  find_field v category_data = inr ("", VStr "").
Proof.
  intros Hv Hc Hmiss. destruct (find_field_unfold v _ Hc) as [-> Hd].
  by apply find_field_loop_miss.
Qed.

Lemma find_category_loop_miss v default categories :
  hashable v = true →
  forallb (λ p, is_category_entry p.2) categories = true →
  existsb (λ p, category_maps v p.2) categories = false →
  find_category_loop v default categories = inr (VDict [], "", default).
Proof.
  intros Hv. induction categories as [|[category category_data] rest IH]; simpl; [done|].
  intros [Hc Hrest]%andb_true_iff [Hm Hmiss]%orb_false_iff.
  rewrite (find_field_miss v category_data Hv Hc Hm). simpl. by apply IH.
Qed.

(** What [document_maps] decides, spelled out on the entries. *)
Lemma document_maps_spec v mapping :
  document_maps v mapping = true ↔
  ∃ categories category category_data field m s w,
    mapping = VDict categories
    ∧ (category, category_data) ∈ categories
    ∧ (field, VDict m) ∈ category_fields category_data
    ∧ v = VStr s ∧ dict_lookup s m = Some w ∧ truthy w = true.
Proof.
  split.
  - destruct mapping as [| | | | |categories]; try discriminate. simpl.
    intros ([category category_data] & Hin & Hc)%existsb_exists.
    apply existsb_exists in Hc as ([field field_data] & Hin' & Hf).
    destruct field_data as [| | | | |m]; try discriminate.
    destruct v as [| | |s| |]; try discriminate. simpl in Hf.
    destruct (dict_lookup s m) as [w|] eqn:Hw; [|discriminate].
    exists categories, category, category_data, field, m, s, w.
    rewrite <- !list_elem_of_In in *. done.
  - intros (categories & category & category_data & field & m & s & w
            & -> & Hin & Hin' & -> & Hw & Ht). simpl.
    apply existsb_exists. exists (category, category_data).
    split; [by apply list_elem_of_In|]. apply existsb_exists.
    exists (field, VDict m). split; [by apply list_elem_of_In|].
    simpl. by rewrite Hw.
Qed.

End lookup.

Lemma find_category_miss (mapping v default : value) :
  is_mapping_document mapping = true →
  hashable v = true →
  document_maps v mapping = false →
  find_category mapping v default = inr (VDict [], "", default).
Proof.
  destruct mapping as [| | | | |categories]; try discriminate.
  intros Hdoc Hv Hmiss. unfold find_category. simpl.
  by apply find_category_loop_miss.
Qed.

(** C1. A value that no category maps passes through [find_category]
    unchanged: on a mapping document, for a value [v] that is not a key
    with a non-empty mapped value in any category's field mappings,
    [find_category(v, default=v)] returns the empty category, the empty
    field name and [v] itself, and raises nothing. *)
Theorem find_category_pass_through (mapping v : value) :
  is_mapping_document mapping = true →
  hashable v = true →
  document_maps v mapping = false →
  find_category mapping v v = inr (VDict [], "", v).
Proof. apply find_category_miss. Qed.

Lemma find_category_pass_through_witness :
  find_category MAPPING_CONFIG_TEMPLATE (VStr "Computerphile") (VStr "Computerphile")
  = inr (VDict [], "", VStr "Computerphile").
Proof. apply find_category_pass_through; reflexivity. Defined.

(** C2. First match wins, in declaration order.  When every category
    declared before [category] maps nothing for [v], and within [category]
    every field declared before [field] maps nothing for [v], while
    [field] maps [v] to the non-empty [w], then [find_category] returns
    that category's entry with [field] and [w], whatever the categories
    and fields declared later hold. *)
Theorem find_category_first_match
    (pre post fpre fpost : list (string * value))
    (category field : string) (category_data field_data v w default : value) :
  is_mapping_document (VDict (pre ++ (category, category_data) :: post)) = true →
  category_fields category_data = fpre ++ (field, field_data) :: fpost →
  existsb (λ p, category_maps v p.2) pre = false →
  existsb (λ p, field_maps v p.2) fpre = false →
  get field_data v (VStr "") = inr w →
  truthy w = true →
  find_category (VDict (pre ++ (category, category_data) :: post)) v default
  = inr (category_data, field, w).
Proof.
  simpl. rewrite forallb_app. simpl.
  intros [Hpre [Hc _]%andb_true_iff]%andb_true_iff Hfields Hmiss Hfmiss Hget Hw.
  destruct (find_field_unfold v _ Hc) as [Hff Hdicts].
  rewrite Hfields, forallb_app in Hdicts. simpl in Hdicts.
  apply andb_true_iff in Hdicts as [Hdpre [Hd _]%andb_true_iff].
  assert (Hv : hashable v = true) by eauto using get_ok_hashable.
  unfold find_category. simpl.
  induction pre as [|[c' cd'] pre IH]; simpl in *.
  - rewrite Hff, Hfields.
    rewrite (find_field_loop_hit v fpre field field_data fpost w) by done.
    simpl. by rewrite Hw.
  - apply andb_true_iff in Hpre as [Hc' Hpre].
    apply orb_false_iff in Hmiss as [Hm Hmiss].
    rewrite (find_field_miss v cd' Hv Hc' Hm). simpl. by apply IH.
Qed.

Lemma find_category_first_match_witness :
  find_category Examples.two_categories (VStr "MIT OpenCourseWare") (VStr "MIT OpenCourseWare")
  = inr (Examples.first_category, "channel", VStr "OCW - MIT").
Proof.
  apply (find_category_first_match
           [] [("misc", Examples.second_category)] [] []
           "lectures" "channel" Examples.first_category
           (VDict [("MIT OpenCourseWare", VStr "OCW - MIT")]));
    reflexivity.
Defined.

(** ** Strings *)

Lemma append_nil (b : string) : "" +:+ b = b.
Proof. reflexivity. Qed.

Lemma append_cons (x : ascii) (a b : string) : String x a +:+ b = String x (a +:+ b).
Proof. reflexivity. Qed.

Lemma append_assoc (a b c : string) : (a +:+ b) +:+ c = a +:+ (b +:+ c).
Proof.
  induction a as [|x a IH]; [done|]. rewrite !append_cons. by rewrite IH.
Qed.

Lemma prefix_append (s t : string) : String.prefix s (s +:+ t) = true.
Proof.
  induction s as [|x s IH]; [by destruct t|].
  rewrite append_cons. simpl. destruct (ascii_dec x x); [done|congruence].
Qed.

Lemma contains_unfold (needle haystack : string) :
  contains needle haystack
  = String.prefix needle haystack
    || match haystack with
       | EmptyString => false
       | String _ rest => contains needle rest
       end.
Proof. by destruct haystack. Qed.

(** A string occurs in whatever is built around it. *)
Lemma contains_append (a s b : string) : contains s (a +:+ s +:+ b) = true.
Proof.
  induction a as [|x a IH].
  - rewrite append_nil, contains_unfold, prefix_append. done.
  - rewrite append_cons. simpl. rewrite IH. apply orb_true_r.
Qed.

(** ** Properties of the gate, the dispatch and the cleanup step *)

Section run.
Context {P : Platform}.
Implicit Types (st : state) (info : information).

(** C3. When the output template does not contain the placeholder, [run]
    returns the record it was given with an empty deletion list and
    leaves the whole state as it was: nothing is looked up, no path is
    changed, no field is injected and nothing is scheduled. *)
Theorem run_gate_closed st info :
  is_mapping_used st = false →
  run info st = (inr ([], info), st).
Proof. intros Hgate. unfold run, bind, gets, ret. by rewrite Hgate. Qed.

(** *** The frame of the dispatch: it schedules nothing itself *)

Lemma change_path_added category dir_type st :
  added (change_path category dir_type st).2 = added st.
Proof.
  unfold change_path, bind, lift, gets, modify, ret, raise.
  repeat (case_match; simplify_eq/=; try done).
Qed.

Lemma check_pp_position_state st : (check_pp_position st).2 = st.
Proof.
  unfold check_pp_position, bind, gets, raise, ret. by case_match.
Qed.

Lemma mapping_before_download_added info st :
  added (mapping_before_download info st).2 = added st.
Proof.
  unfold mapping_before_download, bind, lift, gets, modify, ret.
  destruct (find_category _ _ _) as [e|[[category field] new_channel_name]]; [done|].
  pose proof (change_path_added category "home" st) as Hhome.
  destruct (change_path category "home" st) as [[e|[]] st1]; [done|].
  pose proof (change_path_added category "temp" st1) as Htemp.
  destruct (change_path category "temp" st1) as [[e|[]] st2]; simpl in *; congruence.
Qed.

Lemma main_processing_added info st :
  added (main_processing info st).2 = added st.
Proof.
  unfold main_processing. case_match; [apply mapping_before_download_added|done].
Qed.

Lemma guarded_processing_added info st :
  added (guarded_processing info st).2 = added st.
Proof.
  unfold guarded_processing, bind.
  pose proof (check_pp_position_state st) as Hst.
  destruct (check_pp_position st) as [[e|[]] st1]; simpl in Hst; subst st1; [done|].
  apply main_processing_added.
Qed.

(** C4, as the code has it.  [run] always returns a result: whatever
    the guard and the dispatch raise inside the protected block is
    discarded, and the call then returns the empty deletion list with the
    record it was given.  The cleanup step is scheduled, once and at
    [after_video], exactly when the output template contains the
    placeholder; a call that stops at the gate schedules nothing. *)
Theorem run_returns_and_schedules st info :
  ∃ deletable info' st',
    run info st = (inr (deletable, info'), st')
    ∧ added st'
      = (if is_mapping_used st then added st ++ [(PostCleanupPP, "after_video")]
         else added st)
    ∧ ∀ e st1, guarded_processing info st = (inl e, st1) →
               (deletable, info') = ([], info).
Proof.
  unfold run, bind, gets, try_except, modify, ret.
  destruct (is_mapping_used st) eqn:Hgate; simpl.
  - pose proof (guarded_processing_added info st) as Hadded.
    destruct (guarded_processing info st) as [[e|[deletable info']] st1]; simpl in *.
    + eexists _, _, _. split; [done|]. simpl. rewrite Hadded. done.
    + eexists _, _, _. split; [done|]. simpl. rewrite Hadded. done.
  - eexists _, _, _. split; [done|]. done.
Qed.

(** *** The cleanup step *)

Lemma foldl_delete_lookup (keys : list string) info (key : string) :
  foldl (λ info key, delete key info) info keys !! key
  = if bool_decide (key ∈ keys) then None else info !! key.
Proof.
  revert info. induction keys as [|k keys IH]; intros info; simpl; [done|].
  rewrite IH. destruct (decide (key = k)) as [->|Hne].
  - rewrite lookup_delete_eq, (bool_decide_eq_true_2 (k ∈ k :: keys)) by set_solver.
    by destruct (bool_decide (k ∈ keys)).
  - rewrite lookup_delete_ne by done.
    rewrite (bool_decide_ext (key ∈ k :: keys) (key ∈ keys)); [done|].
    rewrite elem_of_cons. tauto.
Qed.

(** C5. Executing the scheduled cleanup step raises nothing, deletes
    nothing from disk, and removes from the record exactly the keys of
    the plugin's list of injected fields: such a key is absent afterwards,
    whether or not it was present, and every other key keeps its value. *)
Theorem post_cleanup_removes_exactly st info :
  ∃ info',
    run_post_processor PostCleanupPP info st = (inr ([], info'), st)
    ∧ ∀ key, info' !! key
             = if bool_decide (key ∈ mapped_fields st) then None else info !! key.
Proof.
  eexists. split; [reflexivity|]. intros key. apply foldl_delete_lookup.
Qed.

(** *** The lifecycle guard *)

Lemma find_pp_position_spec (i : Z) (pp_list : list pp_descriptor) :
  match List.find (λ pp, bool_decide (pp_key pp = Some this_class_name)) pp_list with
  | Some pp =>
      ∃ k : nat, find_pp_position i pp_list = (i + Z.of_nat k)%Z ∧ pp_list !! k = Some pp
  | None => find_pp_position i pp_list = (-1)%Z
  end.
Proof.
  revert i. induction pp_list as [|pp rest IH]; intros i; simpl; [done|].
  case_bool_decide.
  - exists 0%nat. split; [lia|done].
  - specialize (IH (i + 1)%Z). destruct (List.find _ rest) as [pp'|]; [|done].
    destruct IH as (k & -> & Hk). exists (S k). split; [lia|done].
Qed.

Lemma pp_exec_position_of_declared_stage (pp_list : list pp_descriptor) :
  pp_exec_position_of pp_list = declared_stage pp_list.
Proof.
  unfold pp_exec_position_of, declared_stage.
  pose proof (find_pp_position_spec 0 pp_list) as Hpos.
  destruct (List.find _ pp_list) as [pp|].
  - destruct Hpos as (k & -> & Hk). rewrite bool_decide_eq_true_2 by lia.
    replace (Z.to_nat (0 + Z.of_nat k)) with k by lia. by rewrite Hk.
  - rewrite Hpos. done.
Qed.

(** C6. [check_pp_position] accepts exactly the declared stages
    [pre_process], [after_filter] and [video] and changes nothing; for
    any other stage, the default included, it raises an error whose
    message contains the stage and the list of the allowed ones. *)
Theorem check_pp_position_guard st :
  let stage := declared_stage (default [] (postprocessors st)) in
  check_pp_position st
  = (if bool_decide (stage ∈ supported_pp_positions) then inr ()
     else inl (ValueError (invalid_when_message stage)), st)
  ∧ contains stage (invalid_when_message stage) = true
  ∧ contains "pre_process, after_filter, video" (invalid_when_message stage) = true.
Proof.
  intros stage. split; [|split].
  - unfold check_pp_position, bind, gets, raise, ret.
    rewrite pp_exec_position_of_declared_stage. fold stage.
    by case_bool_decide.
  - replace (invalid_when_message stage)
      with (("Invalid " +:+ quoted "when" +:+ " value " +:+ dquote) +:+ stage
            +:+ (dquote +:+ " for post-processor " +:+ quoted this_class_name
                 +:+ " (should be: " +:+ String.concat ", " supported_pp_positions
                 +:+ ")")).
    + apply contains_append.
    + unfold invalid_when_message, quoted. by rewrite !append_assoc.
  - replace (invalid_when_message stage)
      with (("Invalid " +:+ quoted "when" +:+ " value " +:+ quoted stage
             +:+ " for post-processor " +:+ quoted this_class_name
             +:+ " (should be: ") +:+ "pre_process, after_filter, video" +:+ ")").
    + apply contains_append.
    + unfold invalid_when_message. by rewrite !append_assoc.
Qed.

(** *** The dispatch *)

(** C7, as the code has it.  A record whose [filepath] holds a non-empty
    (truthy) value always makes [main_processing] raise the
    [PostProcessingError] that tells the operator to register the plugin
    at [pre_process]; the state is left as it was and no record is
    returned. *)
Theorem main_processing_after_download st info (filepath : value) :
  info !! "filepath" = Some filepath →
  truthy filepath = true →
  let msg := not_implemented_message (quoted "after_filter" +:+ " and " +:+ quoted "video") in
  main_processing info st = (inl (PostProcessingError msg), st)
  ∧ contains ("Consider set ChannelMapping at " +:+ quoted "pre_process") msg = true
  ∧ contains ("--use-postprocessor " +:+ quoted "ChannelMapping:when=pre_process") msg
    = true.
Proof.
  intros Hpath Htruthy msg. split; [|split; reflexivity].
  unfold main_processing. rewrite Hpath. simpl. rewrite Htruthy. reflexivity.
Qed.

(** A record without a truthy [filepath] is handed to the flow that
    runs before the download. *)
Lemma main_processing_before_download st info :
  truthy (default (VBool false) (info !! "filepath")) = false →
  main_processing info st = mapping_before_download info st.
Proof. intros Hpath. unfold main_processing. by rewrite Hpath. Qed.

(** With the empty category of a lookup miss the path rewriter has
    nothing to do. *)
Lemma change_path_empty_category dir_type st :
  change_path (VDict []) dir_type st = (inr (), st).
Proof. reflexivity. Qed.

(** What [mapping_before_download] returns when it returns. *)
Lemma mapping_before_download_returns info st deletable info' st' :
  mapping_before_download info st = (inr (deletable, info'), st') →
  ∃ field new_channel_name,
    let mapped_field_name :=
      "mapped_" +:+ (if bool_decide (field = "") then "channel" else field) in
    deletable = []
    ∧ info' = <[mapped_field_name := new_channel_name]> info
    ∧ mapped_fields st' = mapped_fields st ++ [mapped_field_name].
Proof.
  unfold mapping_before_download, bind, lift, gets, modify, ret.
  destruct (find_category _ _ _) as [e|[[category field] new_channel_name]]; [done|].
  assert (Hframe : ∀ dir_type st0,
             mapped_fields (change_path category dir_type st0).2 = mapped_fields st0).
  { intros dir_type st0. unfold change_path, bind, lift, gets, modify, ret, raise.
    repeat (case_match; simplify_eq/=; try done). }
  pose proof (Hframe "home" st) as Hhome.
  destruct (change_path category "home" st) as [[e|[]] st1]; [done|].
  pose proof (Hframe "temp" st1) as Htemp.
  destruct (change_path category "temp" st1) as [[e|[]] st2]; [done|].
  simpl in *. intros [= <- <- <-]. exists field, new_channel_name. simpl.
  by rewrite Htemp, Hhome.
Qed.

(** C10. [mapping_before_download] injects a mapped field even when the
    lookup finds nothing.  On a mapping document that does not map the
    record's channel name, it returns the record extended with
    ["mapped_channel"] holding the original channel name, prints the
    notice and appends ["mapped_channel"] to the list of injected fields;
    nothing else changes.  And whenever it returns, the record has
    gained one [mapped_] key, which was appended to that list. *)
Theorem mapping_before_download_no_match st info :
  let original_channel := default (VStr "") (info !! "channel") in
  is_mapping_document (_mapping st) = true →
  hashable original_channel = true →
  document_maps original_channel (_mapping st) = false →
  mapping_before_download info st
  = (inr ([], <["mapped_channel" := original_channel]> info),
     append_mapped_field "mapped_channel"
       (print (to_screen original_channel original_channel) st))
  ∧ ∀ deletable info' st',
      mapping_before_download info st = (inr (deletable, info'), st') →
      ∃ name new_channel_name,
        String.prefix "mapped_" name = true
        ∧ info' = <[name := new_channel_name]> info
        ∧ mapped_fields st' = mapped_fields st ++ [name].
Proof.
  intros original_channel Hdoc Hv Hmiss. split.
  - unfold mapping_before_download, bind, lift, gets, modify, ret. fold original_channel.
    rewrite (find_category_miss _ _ original_channel Hdoc Hv Hmiss). reflexivity.
  - intros deletable info' st' Hrun.
    apply mapping_before_download_returns in Hrun
      as (field & new_channel_name & _ & -> & ->).
    eexists _, _. split; [|done]. apply (prefix_append "mapped_").
Qed.

(** When the lookup hits and the path rewriter returns for both kinds,
    the mapped value is injected under the name of the matched field. *)
Lemma mapping_before_download_match st st1 st2 info category field new_channel_name :
  let original_channel := default (VStr "") (info !! "channel") in
  let mapped_field_name :=
    "mapped_" +:+ (if bool_decide (field = "") then "channel" else field) in
  find_category (_mapping st) original_channel original_channel
  = inr (category, field, new_channel_name) →
  change_path category "home" st = (inr (), st1) →
  change_path category "temp" st1 = (inr (), st2) →
  mapping_before_download info st
  = (inr ([], <[mapped_field_name := new_channel_name]> info),
     append_mapped_field mapped_field_name
       (print (to_screen original_channel new_channel_name) st2)).
Proof.
  intros original_channel mapped_field_name Hfind Hhome Htemp.
  unfold mapping_before_download, bind, lift, gets, modify, ret.
  fold original_channel. rewrite Hfind, Hhome, Htemp. reflexivity.
Qed.

(** *** From injection to cleanup *)

(** The record [run] returns is the one it was given, possibly with one
    key added that is in the list of injected fields. *)
Lemma run_record st info deletable info' st' :
  run info st = (inr (deletable, info'), st') →
  info' = info
  ∨ ∃ name new_channel_name,
      info' = <[name := new_channel_name]> info ∧ name ∈ mapped_fields st'.
Proof.
  unfold run, bind, gets, try_except, modify, ret.
  destruct (is_mapping_used st); simpl; [|intros [= <- <- <-]; by left].
  destruct (guarded_processing info st) as [[e|[deletable1 info1]] st1] eqn:Hrun;
    simpl; [intros [= <- <- <-]; by left|].
  intros [= <- <- <-]. revert Hrun. unfold guarded_processing, bind.
  pose proof (check_pp_position_state st) as Hst.
  destruct (check_pp_position st) as [[e|[]] st0]; simpl in Hst; subst st0; [done|].
  unfold main_processing. case_match; [|done].
  intros (field & new_channel_name & _ & -> & Hfields)%mapping_before_download_returns.
  right. eexists _, _. split; [done|]. simpl. rewrite Hfields.
  apply elem_of_app. right. apply list_elem_of_singleton. done.
Qed.

(** X21. Injected fields do not leak: running the cleanup step on what
    [run] returned gives the input record without the keys of the list of
    injected fields. *)
Lemma run_then_cleanup st info deletable info' st' :
  run info st = (inr (deletable, info'), st') →
  ∃ cleaned,
    run_post_processor PostCleanupPP info' st' = (inr ([], cleaned), st')
    ∧ ∀ key, cleaned !! key
             = if bool_decide (key ∈ mapped_fields st') then None else info !! key.
Proof.
  intros Hrun. eexists. split; [reflexivity|]. intros key.
  rewrite foldl_delete_lookup.
  apply run_record in Hrun as [->|(name & w & -> & Hname)]; [done|].
  case_bool_decide as Hkey; [done|].
  apply lookup_insert_ne. by intros ->.
Qed.

End run.

(** ** Properties that rest on the operating system's contracts *)

Section platform_laws.
Context {P : Platform} {L : PlatformLaws P}.
Implicit Types (st : state) (info : information).

(** The state a successful path rewrite leaves behind. *)
Lemma change_path_success category dir_type st st' :
  change_path category dir_type st = (inr (), st') →
  (∃ w, get category (VStr dir_type) (VStr "") = inr w ∧ truthy w = false ∧ st' = st)
  ∨ (∃ location s' ps,
       get category (VStr dir_type) (VStr "") = inr (VStr location)
       ∧ location ≠ ""
       ∧ makedirs (filesystem st) (realpath (filesystem st) location) = inr s'
       ∧ paths st = Some ps
       ∧ st' = set_paths (<[dir_type := realpath (filesystem st) location]> ps)
                 (set_filesystem s' st)).
Proof.
  unfold change_path, bind, lift, gets, modify, ret, raise.
  destruct (get category (VStr dir_type) (VStr "")) as [e|w] eqn:Hget; [done|].
  destruct (truthy w) eqn:Hw; simpl.
  - destruct w as [| | |location| |]; try done.
    destruct (makedirs _ _) as [e|s'] eqn:Hmk; [done|]. simpl.
    destruct (paths st) as [ps|] eqn:Hps; [|done].
    intros [= <-]. right. exists location, s', ps.
    split_and!; try done. intros ->. done.
  - intros [= <-]. left. eauto.
Qed.

(** C8. [change_path] is idempotent: after a call that returned, the
    same call returns again and leaves the state, and with it the host's
    path parameter, as the first call left it.  It accepts a directory
    that already exists, setting the parameter to the resolved path
    without touching the file system.  And when the category holds no
    (or an empty) directory for the kind, it does nothing. *)
Theorem change_path_idempotent category dir_type st :
  (∀ st', change_path category dir_type st = (inr (), st') →
          change_path category dir_type st' = (inr (), st'))
  ∧ (∀ location ps,
       get category (VStr dir_type) (VStr "") = inr (VStr location) →
       location ≠ "" →
       isdir (filesystem st) (realpath (filesystem st) location) = true →
       paths st = Some ps →
       change_path category dir_type st
       = (inr (), set_paths (<[dir_type := realpath (filesystem st) location]> ps) st))
  ∧ (∀ w, get category (VStr dir_type) (VStr "") = inr w →
          truthy w = false →
          change_path category dir_type st = (inr (), st)).
Proof.
  split; [|split].
  - intros st' [(w & Hget & Hw & ->)|(location & s' & ps & Hget & Hne & Hmk & Hps & ->)]
      %change_path_success.
    + unfold change_path, bind, lift, ret. by rewrite Hget, Hw.
    + unfold change_path, bind, lift, gets, modify, ret. rewrite Hget. simpl.
      rewrite bool_decide_eq_false_2 by done. simpl.
      rewrite (realpath_makedirs _ _ _ Hmk).
      rewrite (makedirs_existing s' _ (makedirs_creates _ _ _ Hmk)). simpl.
      unfold set_paths, set_filesystem. simpl. by rewrite insert_insert_eq.
  - intros location ps Hget Hne Hdir Hps.
    unfold change_path, bind, lift, gets, modify, ret. rewrite Hget. simpl.
    rewrite bool_decide_eq_false_2 by done. simpl.
    rewrite (makedirs_existing _ _ Hdir). simpl. rewrite Hps.
    by destruct st.
  - intros w Hget Hw. unfold change_path, bind, lift, ret. by rewrite Hget, Hw.
Qed.

(** Loading a path at which nothing exists: the template is dumped to
    the path, the warning is printed, and the file is read back. *)
Lemma load_mapping_new_file config_path file_type st s1 s2 :
  path_exists (filesystem st) config_path = false →
  check_config_type config_path = inr file_type →
  makedirs (filesystem st) (dirname config_path) = inr s1 →
  write_file s1 config_path (dump file_type MAPPING_CONFIG_TEMPLATE 4) = inr s2 →
  load_mapping config_path st
  = (load file_type (dump file_type MAPPING_CONFIG_TEMPLATE 4),
     print (report_warning
              ("Mapping file not found. Created a template mapping file at: "
               +:+ config_path))
       (set_filesystem s2 st)).
Proof.
  intros Hnew Htype Hmk Hwrite.
  pose proof (read_write_file _ _ _ _ Hwrite) as Hread.
  unfold load_mapping, write_mapping_template, _save_file, _load_file,
    bind, lift, gets, modify, ret, try_except.
  rewrite Htype, Hnew. simpl. rewrite Hmk. simpl.
  rewrite Hwrite. simpl. rewrite Hread.
  by destruct (load file_type _).
Qed.

(** A format that passed the type check is at hand. *)
Lemma check_config_type_available config_path file_type :
  check_config_type config_path = inr file_type →
  file_type = JSON ∨ yaml_available = true.
Proof.
  unfold check_config_type. case_bool_decide; [intros [= <-]; by left|].
  destruct (bool_decide _ && yaml_available) eqn:Hyaml; [|done].
  apply andb_true_iff in Hyaml as [_ Hyaml]. by right.
Qed.

(** C9. Loading a path of a recognised format at which nothing exists,
    when the directory can be created and the file can be written: the
    template is dumped to the path, the warning is printed, and what
    [load_mapping] returns is the document that the format parses from
    the content of that file.  By the contract of the format, that
    document equals the template (as Python compares dictionaries; a
    dump may reorder keys). *)
Theorem load_mapping_creates_template {C : CodecLaws P}
    config_path file_type st s1 s2 :
  path_exists (filesystem st) config_path = false →
  check_config_type config_path = inr file_type →
  makedirs (filesystem st) (dirname config_path) = inr s1 →
  write_file s1 config_path (dump file_type MAPPING_CONFIG_TEMPLATE 4) = inr s2 →
  ∃ content mapping,
    load_mapping config_path st
    = (inr mapping,
       print (report_warning
                ("Mapping file not found. Created a template mapping file at: "
                 +:+ config_path))
         (set_filesystem s2 st))
    ∧ content = dump file_type MAPPING_CONFIG_TEMPLATE 4
    ∧ read_file s2 config_path = inr content
    ∧ load file_type content = inr mapping
    ∧ Py.eqb mapping MAPPING_CONFIG_TEMPLATE = true.
Proof.
  intros Hnew Htype Hmk Hwrite.
  destruct (load_dump file_type MAPPING_CONFIG_TEMPLATE 4
              (check_config_type_available _ _ Htype) eq_refl)
    as (loaded & Hload & Heq).
  exists (dump file_type MAPPING_CONFIG_TEMPLATE 4), loaded.
  split_and!; [|done|by eapply read_write_file|done|done].
  rewrite <- Hload. by eapply load_mapping_new_file.
Qed.

(** X22. Constructed on a configuration path at which nothing exists,
    the plugin has the loaded template as its mapping and no injected
    field. *)
Lemma init_creates_template config file_type st s1 s2 loaded :
  let config_path := _normalize_path config in
  path_exists (filesystem st) config_path = false →
  check_config_type config_path = inr file_type →
  makedirs (filesystem st) (dirname config_path) = inr s1 →
  write_file s1 config_path (dump file_type MAPPING_CONFIG_TEMPLATE 4) = inr s2 →
  load file_type (dump file_type MAPPING_CONFIG_TEMPLATE 4) = inr loaded →
  ∃ st', __init__ (Some config) st = (inr (), st')
         ∧ _mapping st' = loaded ∧ mapped_fields st' = [].
Proof.
  intros config_path Hnew Htype Hmk Hwrite Hload.
  unfold __init__, bind, modify. simpl. fold config_path.
  rewrite (load_mapping_new_file _ _ _ _ _ Hnew Htype Hmk Hwrite), Hload.
  eexists. split; [reflexivity|done].
Qed.

End platform_laws.

(** The small platform honours the contracts. *)
Lemma ListFS_laws : PlatformLaws ListFS.platform.
Proof.
  split; simpl.
  - intros s q Hdir. unfold ListFS.make_dirs. by rewrite Hdir.
  - intros s q s'. unfold ListFS.make_dirs.
    destruct (ListFS.is_dir s q) eqn:Hdir; [by intros [= <-]|].
    case_match; [done|]. intros [= <-].
    unfold ListFS.is_dir. simpl. apply bool_decide_eq_true_2, elem_of_cons. by left.
  - done.
  - intros s p c s'. unfold ListFS.write. case_match; [done|]. intros [= <-].
    unfold ListFS.read, ListFS.file_lookup. simpl.
    by rewrite bool_decide_eq_true_2.
Qed.

(** *** Equality of documents *)

(** Induction on documents, with the hypothesis for every element of a
    list and every value of a dictionary. *)
Lemma value_nested_ind (Q : value → Prop) :
  Q VNone → (∀ b, Q (VBool b)) → (∀ n, Q (VInt n)) → (∀ s, Q (VStr s)) →
  (∀ items, Forall Q items → Q (VList items)) →
  (∀ entries, Forall (λ p, Q p.2) entries → Q (VDict entries)) →
  ∀ v, Q v.
Proof.
  intros HNone HBool HInt HStr HList HDict.
  fix IH 1. intros [| b | n | s | items | entries]; [done..| |].
  - apply HList. induction items as [|x items IHitems]; constructor; [apply IH|done].
  - apply HDict. induction entries as [|[k x] entries IHentries];
      constructor; [apply IH|done].
Qed.

Lemma dict_lookup_unique (entries : list (string * value)) k x :
  NoDup entries.*1 → (k, x) ∈ entries → dict_lookup k entries = Some x.
Proof.
  induction entries as [|[k' x'] entries IH]; simpl.
  - by intros _ ?%elem_of_nil.
  - intros [Hfresh Hrest]%NoDup_cons [[= -> ->]|Hin]%elem_of_cons.
    + by rewrite bool_decide_eq_true_2.
    + rewrite bool_decide_eq_false_2; [by apply IH|].
      intros ->. apply Hfresh. apply list_elem_of_fmap. by exists (k', x).
Qed.

(** A document without repeated keys equals itself. *)
Lemma eqb_refl (v : value) : unique_keys v = true → Py.eqb v v = true.
Proof.
  induction v as [| b | n | s | items IH | entries IH] using value_nested_ind;
    simpl; intros Hkeys.
  - done.
  - by apply bool_decide_eq_true_2.
  - by apply Z.eqb_eq.
  - by apply bool_decide_eq_true_2.
  - induction IH as [|x items Hx _ IHitems]; [done|].
    apply andb_true_iff in Hkeys as [Hkx Hkeys].
    apply andb_true_iff. split; [by apply Hx|by apply IHitems].
  - apply andb_true_iff in Hkeys as [Hnodup%bool_decide_eq_true Hkeys].
    apply andb_true_iff. split; [by apply bool_decide_eq_true_2|].
    assert (Hsub : ∀ k x, (k, x) ∈ entries → dict_lookup k entries = Some x)
      by (intros k x; by apply dict_lookup_unique).
    match goal with
    | |- ?compare entries = true =>
        match type of Hkeys with
        | ?keys entries = true =>
            assert (Hpart : ∀ part,
                      Forall (λ p, unique_keys p.2 = true → Py.eqb p.2 p.2 = true) part →
                      (∀ k x, (k, x) ∈ part → dict_lookup k entries = Some x) →
                      keys part = true → compare part = true)
        end
    end.
    { intros part Hall. induction Hall as [|[k x] part Hx _ IHpart]; [done|].
      intros Hin [Hkx Hrest]%andb_true_iff.
      rewrite (Hin k x) by (apply elem_of_cons; by left).
      apply andb_true_iff. split; [by apply Hx|].
      apply IHpart; [|done]. intros k' x' Hin'. apply Hin, elem_of_cons. by right. }
    by apply Hpart.
Qed.

(** The small platform honours the contract of the formats. *)
Lemma ListFS_codec_laws : CodecLaws ListFS.platform.
Proof.
  split. intros file_type data indent _ Hkeys. exists data.
  split; [by destruct file_type|by apply eqb_refl].
Qed.

Lemma run_gate_closed_witness :
  run Examples.video Examples.plain_host = (inr ([], Examples.video), Examples.plain_host).
Proof. apply run_gate_closed. reflexivity. Defined.

(** The claim of C4 fails at the gate: with an output template that lacks
    the placeholder, [run] returns without scheduling the cleanup step. *)
Lemma run_gate_closed_schedules_nothing :
  (PostCleanupPP, "after_video") ∉ added (run Examples.video Examples.plain_host).2.
Proof. vm_compute. apply not_elem_of_nil. Qed.

(** The cleanup example of the specification. *)
Example post_cleanup_example :
  PostCleanupPP_run ["mapped_channel"] Examples.with_scratch
  = ([], {[ "channel" := VStr "X"; "other" := VInt 1 ]}).
Proof. by vm_compute. Qed.

Lemma main_processing_after_download_witness :
  main_processing Examples.downloaded Examples.host
  = (inl (PostProcessingError
            (not_implemented_message (quoted "after_filter" +:+ " and " +:+ quoted "video"))),
     Examples.host).
Proof.
  exact (proj1 (main_processing_after_download
                  Examples.host Examples.downloaded (VStr "/media/Primes.mp4")
                  eq_refl eq_refl)).
Defined.

(** The claim of C7 fails for a [filepath] that is present but empty:
    the record takes the flow that runs before the download, which
    returns normally and injects a field. *)
Lemma main_processing_empty_filepath :
  Examples.empty_filepath !! "filepath" = Some (VStr "")
  ∧ main_processing Examples.empty_filepath Examples.host
    = (inr ([], <["mapped_channel" := VStr "Numberphile"]> Examples.empty_filepath),
       append_mapped_field "mapped_channel"
         (print (to_screen (VStr "Numberphile") (VStr "Numberphile")) Examples.host)).
Proof. split; by vm_compute. Qed.

Lemma change_path_idempotent_witness :
  let st' := (change_path Examples.first_category "home" Examples.host).2 in
  change_path Examples.first_category "home" Examples.host = (inr (), st')
  ∧ change_path Examples.first_category "home" st' = (inr (), st').
Proof.
  split; [reflexivity|].
  apply (proj1 (change_path_idempotent (L := ListFS_laws)
                  Examples.first_category "home" Examples.host)).
  reflexivity.
Defined.

Lemma load_mapping_creates_template_witness :
  ∃ mapping,
    (load_mapping "/etc/yt-dlp/mapping.json" Examples.host).1 = inr mapping
    ∧ Py.eqb mapping MAPPING_CONFIG_TEMPLATE = true.
Proof.
  destruct (load_mapping_creates_template (L := ListFS_laws) (C := ListFS_codec_laws)
              "/etc/yt-dlp/mapping.json" JSON Examples.host
              (ListFS.FS ["/etc/yt-dlp"; "/"] [])
              (ListFS.FS ["/etc/yt-dlp"; "/"]
                 [("/etc/yt-dlp/mapping.json", (JSON, MAPPING_CONFIG_TEMPLATE))])
              eq_refl eq_refl eq_refl eq_refl)
    as (content & mapping & Hload & _ & _ & _ & Heq).
  exists mapping. rewrite Hload. split; [reflexivity|exact Heq].
Defined.

Lemma mapping_before_download_no_match_witness :
  mapping_before_download Examples.video Examples.host
  = (inr ([], <["mapped_channel" := VStr "Numberphile"]> Examples.video),
     append_mapped_field "mapped_channel"
       (print (to_screen (VStr "Numberphile") (VStr "Numberphile")) Examples.host)).
Proof.
  exact (proj1 (mapping_before_download_no_match
                  Examples.host Examples.video eq_refl eq_refl eq_refl)).
Defined.

(** ** The plugin at work *)

(** A mapped channel: the first category wins, its directory is created
    and becomes the host's [home] path, the mapped name is injected and
    the cleanup step is scheduled. *)
Example run_mapped_channel :
  run Examples.lecture Examples.host
  = (inr ([], <["mapped_channel" := VStr "OCW - MIT"]> Examples.lecture),
     State (P := ListFS.platform) (ListFS.FS ["/media/lectures"; "/"] [])
           (Some "%(mapped_channel)s/%(title)s.%(ext)s")
           (Some {[ "home" := "/media/lectures" ]})
           (Some [PPDescriptor (Some "ChannelMapping") (Some "pre_process")])
           [(PostCleanupPP, "after_video")]
           [to_screen (VStr "MIT OpenCourseWare") (VStr "OCW - MIT")]
           Examples.two_categories
           ["mapped_channel"]).
Proof. by vm_compute. Qed.

(** A plugin left at the default stage: the guard raises, [run] discards
    the error, returns the record as it was and still schedules the
    cleanup step. *)
Example run_discards_guard_error :
  check_pp_position Examples.late_host
  = (inl (ValueError (invalid_when_message "post_process")), Examples.late_host)
  ∧ run Examples.video Examples.late_host
    = (inr ([], Examples.video),
       add_post_processor PostCleanupPP "after_video" Examples.late_host).
Proof. split; by vm_compute. Qed.

(** After the transfer: the dispatch raises, [run] discards the error. *)
Example run_discards_dispatch_error :
  run Examples.downloaded Examples.host
  = (inr ([], Examples.downloaded),
     add_post_processor PostCleanupPP "after_video" Examples.host).
Proof. by vm_compute. Qed.

(** The template maps its one example channel. *)
Example find_category_template :
  find_category MAPPING_CONFIG_TEMPLATE (VStr "MIT OpenCourseWare") (VStr "MIT OpenCourseWare")
  = inr (VDict [("field", VDict [
                   ("channel", VDict [("MIT OpenCourseWare", VStr "OCW - MIT");
                                      ("<CHANNEL NAME>", VStr "<NEW CHANNEL NAME>")]);
                   ("<FIELD NAME>", VDict [])])],
         "channel", VStr "OCW - MIT").
Proof. reflexivity. Qed.

(** A document that is not of the expected shape makes the lookup raise. *)
Example find_category_malformed :
  find_category (VDict [("lectures", VDict [("field", VDict [("channel", VStr "MIT")])])])
    (VStr "MIT") (VStr "MIT")
  = inl AttributeError.
Proof. reflexivity. Qed.

(** ** Further properties of the lookup engine *)

Section lookup_results.
Implicit Types (v w default : value) (fields categories : list (string * value)).

Lemma find_field_loop_result v fields field w :
  find_field_loop v fields = inr (field, w) →
  (field, w) = ("", VStr "")
  ∨ ∃ field_data, (field, field_data) ∈ fields
                  ∧ get field_data v (VStr "") = inr w ∧ truthy w = true.
Proof.
  induction fields as [|[f fd] rest IH]; simpl.
  - intros [= <- <-]. by left.
  - destruct (get fd v (VStr "")) as [e|w'] eqn:Hget; simpl; [done|].
    destruct (truthy w') eqn:Hw.
    + intros [= <- <-]. right. exists fd. split; [apply elem_of_cons; by left|done].
    + intros [Hmiss|(fd' & Hin & Hres)]%IH; [by left|].
      right. exists fd'. split; [apply elem_of_cons; by right|done].
Qed.

(** When [find_field] returns, it ran its loop over [category_fields]. *)
Lemma find_field_returns v category_data r :
  find_field v category_data = inr r →
  find_field_loop v (category_fields category_data) = inr r.
Proof.
  unfold find_field, category_fields.
  destruct category_data as [| | | | |entries]; try done. simpl.
  destruct (dict_lookup "field" entries) as [[| | | | |fields]|]; simpl; done.
Qed.

Lemma find_category_loop_result v default categories category_data field w :
  find_category_loop v default categories = inr (category_data, field, w) →
  (category_data, field, w) = (VDict [], "", default)
  ∨ ∃ category field_data,
      (category, category_data) ∈ categories
      ∧ (field, field_data) ∈ category_fields category_data
      ∧ get field_data v (VStr "") = inr w ∧ truthy w = true.
Proof.
  induction categories as [|[c cd] rest IH]; simpl.
  - intros [= <- <- <-]. by left.
  - destruct (find_field v cd) as [e|[f w']] eqn:Hfield; simpl; [done|].
    destruct (truthy w') eqn:Hw.
    + intros [= <- <- <-]. right.
      apply find_field_returns, find_field_loop_result in Hfield
        as [[= -> ->]|(fd & Hin & Hget & _)]; [done|].
      exists c, fd. split; [apply elem_of_cons; by left|done].
    + intros [Hmiss|(c' & fd & Hin & Hres)]%IH; [by left|].
      right. exists c', fd. split; [apply elem_of_cons; by right|done].
Qed.

Lemma find_category_result mapping v default category_data field w :
  find_category mapping v default = inr (category_data, field, w) →
  (category_data, field, w) = (VDict [], "", default)
  ∨ ∃ categories category field_data,
      mapping = VDict categories
      ∧ (category, category_data) ∈ categories
      ∧ (field, field_data) ∈ category_fields category_data
      ∧ get field_data v (VStr "") = inr w ∧ truthy w = true.
Proof.
  unfold find_category. destruct mapping as [| | | | |categories]; try done. simpl.
  intros [Hmiss|(c & fd & Hres)]%find_category_loop_result; [by left|].
  right. by exists categories, c, fd.
Qed.

Lemma find_field_loop_found v fields :
  hashable v = true →
  forallb (λ p, is_dict p.2) fields = true →
  existsb (λ p, field_maps v p.2) fields = true →
  ∃ field w, find_field_loop v fields = inr (field, w) ∧ truthy w = true.
Proof.
  intros Hv. induction fields as [|[f fd] rest IH]; simpl; [done|].
  intros [Hd Hrest]%andb_true_iff Hmaps.
  destruct (get_dict_hashable fd v Hd Hv) as (w & -> & Hw). simpl.
  destruct (truthy w) eqn:Htruthy; [by eauto|].
  rewrite <- Hw in Hmaps. simpl in Hmaps. by apply IH.
Qed.

Lemma find_category_loop_found v default categories :
  hashable v = true →
  forallb (λ p, is_category_entry p.2) categories = true →
  existsb (λ p, category_maps v p.2) categories = true →
  ∃ category_data field w,
    find_category_loop v default categories = inr (category_data, field, w)
    ∧ truthy w = true ∧ category_maps v category_data = true.
Proof.
  intros Hv. induction categories as [|[c cd] rest IH]; simpl; [done|].
  intros [Hc Hrest]%andb_true_iff Hmaps.
  destruct (category_maps v cd) eqn:Hcd.
  - destruct (find_field_unfold v cd Hc) as [-> Hdicts].
    destruct (find_field_loop_found v _ Hv Hdicts Hcd) as (f & w & -> & Hw).
    simpl. rewrite Hw. by exists cd, f, w.
  - rewrite (find_field_miss v cd Hv Hc Hcd). simpl. by apply IH.
Qed.

(** X1. What [find_category] returns comes from the document: either
    the triple of a miss (the empty category, the empty field name and
    the caller's default), or an entry of the document, one of its
    fields, and the non-empty value that field maps the input to. *)
Theorem find_category_sound mapping v default category_data field w :
  find_category mapping v default = inr (category_data, field, w) →
  (category_data, field, w) = (VDict [], "", default)
  ∨ ∃ categories category field_data,
      mapping = VDict categories
      ∧ (category, category_data) ∈ categories
      ∧ (field, field_data) ∈ category_fields category_data
      ∧ get field_data v (VStr "") = inr w ∧ truthy w = true.
Proof. apply find_category_result. Qed.

(** X2. On a mapping document and for a hashable value the lookup never
    raises, and it decides whether the document maps the value: it
    returns the triple of a miss when no category maps it, and otherwise
    a category that maps it together with a non-empty mapped value. *)
Theorem find_category_decides mapping v default :
  is_mapping_document mapping = true →
  hashable v = true →
  ∃ category_data field w,
    find_category mapping v default = inr (category_data, field, w)
    ∧ (document_maps v mapping = false
       ∧ (category_data, field, w) = (VDict [], "", default)
       ∨ document_maps v mapping = true
         ∧ truthy w = true ∧ category_maps v category_data = true).
Proof.
  intros Hdoc Hv. destruct (document_maps v mapping) eqn:Hmaps.
  - destruct mapping as [| | | | |categories]; try done.
    destruct (find_category_loop_found v default categories Hv Hdoc Hmaps)
      as (cd & f & w & Hfind & Hw & Hcd).
    exists cd, f, w. split; [done|]. by right.
  - eexists _, _, _. split; [by apply find_category_miss|]. by left.
Qed.

End lookup_results.

Lemma find_category_sound_witness :
  (Examples.first_category, "channel", VStr "OCW - MIT")
  = (VDict [], "", VStr "MIT OpenCourseWare")
  ∨ ∃ categories category field_data,
      Examples.two_categories = VDict categories
      ∧ (category, Examples.first_category) ∈ categories
      ∧ ("channel", field_data) ∈ category_fields Examples.first_category
      ∧ get field_data (VStr "MIT OpenCourseWare") (VStr "") = inr (VStr "OCW - MIT")
      ∧ truthy (VStr "OCW - MIT") = true.
Proof.
  exact (find_category_sound Examples.two_categories (VStr "MIT OpenCourseWare")
           (VStr "MIT OpenCourseWare") Examples.first_category "channel"
           (VStr "OCW - MIT") eq_refl).
Defined.

Lemma find_category_decides_witness :
  ∃ category_data field w,
    find_category Examples.two_categories (VStr "Computerphile") (VStr "Computerphile")
    = inr (category_data, field, w)
    ∧ (document_maps (VStr "Computerphile") Examples.two_categories = false
       ∧ (category_data, field, w) = (VDict [], "", VStr "Computerphile")
       ∨ document_maps (VStr "Computerphile") Examples.two_categories = true
         ∧ truthy w = true ∧ category_maps (VStr "Computerphile") category_data = true).
Proof.
  exact (find_category_decides Examples.two_categories (VStr "Computerphile")
           (VStr "Computerphile") eq_refl eq_refl).
Defined.

(** ** Further properties of the gate and the lifecycle guard *)

Lemma prefix_iff (needle haystack : string) :
  String.prefix needle haystack = true ↔ ∃ b, haystack = needle +:+ b.
Proof.
  split; [|intros [b ->]; apply prefix_append].
  revert haystack. induction needle as [|x needle IH]; intros haystack.
  - intros _. by exists haystack.
  - destruct haystack as [|y haystack]; simpl; [done|].
    destruct (ascii_dec x y) as [->|]; [|done].
    intros [b ->]%IH. exists b. by rewrite append_cons.
Qed.

(** [contains] decides the occurrence of a string in another. *)
Lemma contains_iff (needle haystack : string) :
  contains needle haystack = true ↔ ∃ a b, haystack = a +:+ needle +:+ b.
Proof.
  split; [|intros (a & b & ->); apply contains_append].
  induction haystack as [|c haystack IH]; rewrite contains_unfold.
  - rewrite orb_false_r. intros [b ->]%prefix_iff. by exists "", b.
  - intros [[b ->]%prefix_iff|(a & b & ->)%IH]%orb_true_iff.
    + by exists "", b.
    + exists (String c a), b. by rewrite append_cons.
Qed.

Section guard.
Context {P : Platform}.
Implicit Types (st : state) (info : information).

(** X3. The gate is open exactly when the host has a default output
    template and the literal placeholder [%(mapped_channel)s] occurs in
    it; a host without one keeps the gate closed. *)
Theorem is_mapping_used_iff st :
  is_mapping_used st = true
  ↔ ∃ a b, outtmpl_default st = Some (a +:+ "%(mapped_channel)s" +:+ b).
Proof.
  unfold is_mapping_used. destruct (outtmpl_default st) as [template|]; simpl.
  - rewrite contains_iff. split; intros (a & b & Heq); exists a, b; congruence.
  - split; [done|]. by intros (a & b & ?).
Qed.

Lemma declared_stage_first (pre post : list pp_descriptor) (pp : pp_descriptor) :
  Forall (λ pp', pp_key pp' ≠ Some this_class_name) pre →
  pp_key pp = Some this_class_name →
  declared_stage (pre ++ pp :: post) = default "post_process" (pp_when pp).
Proof.
  intros Hpre Hkey. unfold declared_stage.
  induction Hpre as [|pp' pre Hne _ IH]; simpl.
  - by rewrite bool_decide_eq_true_2.
  - by rewrite bool_decide_eq_false_2.
Qed.

Lemma check_pp_position_declared st :
  check_pp_position st
  = (if bool_decide (declared_stage (default [] (postprocessors st))
                     ∈ supported_pp_positions)
     then inr ()
     else inl (ValueError (invalid_when_message
                             (declared_stage (default [] (postprocessors st))))),
     st).
Proof.
  unfold check_pp_position, bind, gets, raise, ret.
  rewrite pp_exec_position_of_declared_stage. by case_bool_decide.
Qed.

(** X4. A plugin that the host did not register, or registered without
    a stage, is rejected: the guard falls back to [post_process], which
    is not among the supported stages, and raises. *)
Theorem check_pp_position_unregistered st :
  (∀ pp, pp ∈ default [] (postprocessors st) →
         pp_key pp = Some this_class_name → pp_when pp = None) →
  check_pp_position st
  = (inl (ValueError (invalid_when_message "post_process")), st).
Proof.
  intros Hnone. rewrite check_pp_position_declared.
  assert (declared_stage (default [] (postprocessors st)) = "post_process") as ->; [|done].
  unfold declared_stage.
  destruct (List.find _ _) as [pp|] eqn:Hfind; [|done].
  apply find_some in Hfind as [Hin Hkey%bool_decide_eq_true].
  apply list_elem_of_In in Hin. by rewrite (Hnone pp Hin Hkey).
Qed.

(** X5. Only the first registration of the plugin counts: descriptors
    of other post-processors before it and whatever follows it, further
    registrations of the plugin included, do not change the verdict. *)
Theorem check_pp_position_first_registration st pre pp post :
  postprocessors st = Some (pre ++ pp :: post) →
  Forall (λ pp', pp_key pp' ≠ Some this_class_name) pre →
  pp_key pp = Some this_class_name →
  let stage := default "post_process" (pp_when pp) in
  check_pp_position st
  = (if bool_decide (stage ∈ supported_pp_positions) then inr ()
     else inl (ValueError (invalid_when_message stage)), st).
Proof.
  intros Hpps Hpre Hkey stage. rewrite check_pp_position_declared, Hpps. simpl.
  by rewrite (declared_stage_first pre post pp Hpre Hkey).
Qed.

End guard.

Lemma check_pp_position_unregistered_witness :
  check_pp_position Examples.late_host
  = (inl (ValueError (invalid_when_message "post_process")), Examples.late_host).
Proof.
  apply check_pp_position_unregistered. intros pp Hin Hkey. simpl in Hin.
  apply elem_of_cons in Hin as [->|Hin]; [done|].
  apply list_elem_of_singleton in Hin as ->. done.
Defined.

Lemma check_pp_position_first_registration_witness :
  check_pp_position Scenarios.twice_registered = (inr (), Scenarios.twice_registered).
Proof.
  apply (check_pp_position_first_registration Scenarios.twice_registered
           [PPDescriptor (Some "FFmpegMetadata") (Some "post_process")]
           (PPDescriptor (Some "ChannelMapping") (Some "video"))
           [PPDescriptor (Some "ChannelMapping") None]).
  - reflexivity.
  - apply Forall_cons. split; [done|apply Forall_nil_2].
  - reflexivity.
Defined.

(** ** Further properties of the path rewriter and the dispatch *)

Section dispatch.
Context {P : Platform}.
Implicit Types (st : state) (info : information).

(** The path rewriter leaves everything but the file system and the
    host's paths as it was. *)
Lemma change_path_unchanged category dir_type st :
  let st' := (change_path category dir_type st).2 in
  outtmpl_default st' = outtmpl_default st
  ∧ postprocessors st' = postprocessors st
  ∧ added st' = added st
  ∧ printed st' = printed st
  ∧ _mapping st' = _mapping st
  ∧ mapped_fields st' = mapped_fields st.
Proof.
  unfold change_path, bind, lift, gets, modify, ret, raise.
  repeat (case_match; simplify_eq/=; try done).
Qed.

(** X6. Whatever its outcome, [change_path] changes nothing but the
    file system and the host's path of the given kind: the paths of the
    other kinds, the output template, the registrations, the scheduled
    steps, the output, the mapping and the list of injected fields stay
    as they were. *)
Theorem change_path_frame category dir_type st :
  let st' := (change_path category dir_type st).2 in
  (∀ other, other ≠ dir_type →
            paths st' ≫= (.!! other) = paths st ≫= (.!! other))
  ∧ outtmpl_default st' = outtmpl_default st
  ∧ postprocessors st' = postprocessors st
  ∧ added st' = added st
  ∧ printed st' = printed st
  ∧ _mapping st' = _mapping st
  ∧ mapped_fields st' = mapped_fields st.
Proof.
  split; [|apply change_path_unchanged].
  intros other Hother. unfold change_path, bind, lift, gets, modify, ret, raise.
  repeat (case_match; simplify_eq/=; try done).
  - apply lookup_insert_ne. by intros ->.
  - by match goal with H : paths st = None |- _ => rewrite H end.
Qed.

(** What a failing [mapping_before_download] leaves behind. *)
Lemma mapping_before_download_raises info st e st' :
  mapping_before_download info st = (inl e, st') →
  outtmpl_default st' = outtmpl_default st
  ∧ postprocessors st' = postprocessors st
  ∧ added st' = added st
  ∧ printed st' = printed st
  ∧ _mapping st' = _mapping st
  ∧ mapped_fields st' = mapped_fields st.
Proof.
  unfold mapping_before_download, bind, lift, gets, modify, ret.
  destruct (find_category _ _ _) as [e'|[[category field] new_channel_name]].
  { by intros [= <- <-]. }
  pose proof (change_path_unchanged category "home" st) as Hhome.
  destruct (change_path category "home" st) as [[e'|[]] st1]; simpl in Hhome.
  { by intros [= <- <-]. }
  pose proof (change_path_unchanged category "temp" st1) as Htemp.
  destruct (change_path category "temp" st1) as [[e'|[]] st2]; simpl in Htemp; [|done].
  intros [= <- <-]. destruct_and!. split_and!; congruence.
Qed.

(** X7. A mapping that fails leaves no trace of an injection: when
    [mapping_before_download] raises, no record is returned, no notice
    was printed and no name was added to the list of injected fields;
    only the file system and the host's paths may have changed. *)
Theorem mapping_before_download_failure info st e st' :
  mapping_before_download info st = (inl e, st') →
  printed st' = printed st
  ∧ mapped_fields st' = mapped_fields st
  ∧ added st' = added st
  ∧ _mapping st' = _mapping st.
Proof.
  intros Hrun. apply mapping_before_download_raises in Hrun.
  destruct_and!. done.
Qed.


End dispatch.

Lemma mapping_before_download_failure_witness :
  let st' := (mapping_before_download Examples.lecture Scenarios.no_paths_host).2 in
  mapping_before_download Examples.lecture Scenarios.no_paths_host
  = (inl (KeyError "paths"), st')
  ∧ printed st' = []
  ∧ mapped_fields st' = []
  ∧ ListFS.dirs (filesystem st') = ["/media/lectures"; "/"].
Proof.
  assert (Hrun : mapping_before_download Examples.lecture Scenarios.no_paths_host
                 = (inl (KeyError "paths"),
                    (mapping_before_download Examples.lecture Scenarios.no_paths_host).2))
    by reflexivity.
  destruct (mapping_before_download_failure _ _ _ _ Hrun) as (Hprinted & Hfields & _).
  split; [exact Hrun|]. split; [exact Hprinted|]. split; [exact Hfields|reflexivity].
Defined.


(** ** Further properties of [run] and of the cleanup step *)

Section run_invariants.
Context {P : Platform}.
Implicit Types (st : state) (info : information).

Lemma mapping_before_download_unchanged info st :
  let st' := (mapping_before_download info st).2 in
  outtmpl_default st' = outtmpl_default st
  ∧ postprocessors st' = postprocessors st
  ∧ added st' = added st
  ∧ _mapping st' = _mapping st.
Proof.
  unfold mapping_before_download, bind, lift, gets, modify, ret.
  destruct (find_category _ _ _) as [e|[[category field] new_channel_name]]; [done|].
  pose proof (change_path_unchanged category "home" st) as Hhome.
  destruct (change_path category "home" st) as [[e|[]] st1]; simpl in Hhome.
  { destruct_and!. done. }
  pose proof (change_path_unchanged category "temp" st1) as Htemp.
  destruct (change_path category "temp" st1) as [[e|[]] st2]; simpl in *;
    destruct_and!; split_and!; congruence.
Qed.

(** The two outcomes of the body of the [try] block. *)
Lemma guarded_processing_outcome info st :
  let st' := (guarded_processing info st).2 in
  (outtmpl_default st' = outtmpl_default st
   ∧ postprocessors st' = postprocessors st
   ∧ added st' = added st
   ∧ _mapping st' = _mapping st)
  ∧ match (guarded_processing info st).1 with
    | inl _ => mapped_fields st' = mapped_fields st ∧ printed st' = printed st
    | inr (deletable, info') =>
        deletable = []
        ∧ ∃ name w, String.prefix "mapped_" name = true
                    ∧ info' = <[name := w]> info
                    ∧ mapped_fields st' = mapped_fields st ++ [name]
    end.
Proof.
  unfold guarded_processing, bind.
  pose proof (check_pp_position_state st) as Hst.
  destruct (check_pp_position st) as [[e|[]] st0]; simpl in Hst; subst st0; [done|].
  unfold main_processing. case_match; [|done].
  split; [apply mapping_before_download_unchanged|].
  destruct (mapping_before_download info st) as [[e|[deletable info']] st'] eqn:Hrun; simpl.
  - apply mapping_before_download_raises in Hrun. destruct_and!. done.
  - apply mapping_before_download_returns in Hrun as (field & w & -> & -> & ->).
    split; [done|]. eexists _, _. split; [|done]. apply (prefix_append "mapped_").
Qed.

(** X9. [run] never changes what it is configured by: the loaded
    mapping, the host's output template and the host's registrations
    are the same after a call as before it, whatever the call did. *)
Theorem run_keeps_configuration info st :
  let st' := (run info st).2 in
  _mapping st' = _mapping st
  ∧ outtmpl_default st' = outtmpl_default st
  ∧ postprocessors st' = postprocessors st.
Proof.
  unfold run, bind, gets, try_except, modify, ret.
  destruct (is_mapping_used st); simpl; [|done].
  pose proof (guarded_processing_outcome info st) as [Hconf _].
  destruct (guarded_processing info st) as [[e|r] st1]; simpl in *;
    destruct_and!; done.
Qed.

Lemma run_mapped_fields info st :
  mapped_fields (run info st).2 = mapped_fields st
  ∨ ∃ name, String.prefix "mapped_" name = true
            ∧ mapped_fields (run info st).2 = mapped_fields st ++ [name].
Proof.
  unfold run, bind, gets, try_except, modify, ret.
  destruct (is_mapping_used st); simpl; [|by left].
  pose proof (guarded_processing_outcome info st) as [_ Hout].
  destruct (guarded_processing info st) as [[e|[deletable info']] st1]; simpl in *.
  - left. by destruct Hout.
  - destruct Hout as (_ & name & w & Hname & _ & Hfields). right. by exists name.
Qed.

(** X10. A call of [run] injects at most one field, and keeps the books
    on it: either it returns the record untouched and the list of
    injected fields is as before, or it returns the record with one key
    set whose name starts with [mapped_], and that name is the one
    appended to the list.  The deletion list is empty either way. *)
Theorem run_injects_at_most_one info st :
  let st' := (run info st).2 in
  (run info st).1 = inr ([], info) ∧ mapped_fields st' = mapped_fields st
  ∨ ∃ name w,
      String.prefix "mapped_" name = true
      ∧ (run info st).1 = inr ([], <[name := w]> info)
      ∧ mapped_fields st' = mapped_fields st ++ [name].
Proof.
  unfold run, bind, gets, try_except, modify, ret.
  destruct (is_mapping_used st); simpl; [|by left].
  pose proof (guarded_processing_outcome info st) as [_ Hout].
  destruct (guarded_processing info st) as [[e|[deletable info']] st1]; simpl in *.
  - left. by destruct Hout.
  - destruct Hout as (-> & name & w & Hname & -> & Hfields).
    right. by exists name, w.
Qed.

(** X11. The names in the list of injected fields all start with
    [mapped_], a property [run] preserves; under it the cleanup step
    never removes a key that does not start with [mapped_], so the
    record's own keys, such as [channel] or [filepath], survive it. *)
Theorem run_cleanup_spares_other_keys info st :
  Forall (λ name, String.prefix "mapped_" name = true) (mapped_fields st) →
  let st' := (run info st).2 in
  Forall (λ name, String.prefix "mapped_" name = true) (mapped_fields st')
  ∧ ∀ (record : information) key,
      String.prefix "mapped_" key = false →
      (PostCleanupPP_run (mapped_fields st') record).2 !! key = record !! key.
Proof.
  intros Hinv st'.
  assert (Hinv' : Forall (λ name, String.prefix "mapped_" name = true) (mapped_fields st')).
  { destruct (run_mapped_fields info st) as [Heq|(name & Hname & Heq)];
      subst st'; rewrite Heq; [done|].
    apply Forall_app. split; [done|]. by apply Forall_singleton. }
  split; [done|]. intros record key Hkey. simpl.
  rewrite foldl_delete_lookup. case_bool_decide as Hin; [|done].
  rewrite Forall_forall in Hinv'. specialize (Hinv' key Hin). congruence.
Qed.

End run_invariants.

Section run_outcomes.
Context {P : Platform}.
Implicit Types (st : state) (info : information).

(** X12. The cleanup step is idempotent and depends on the set of keys
    only: running it again changes nothing, and a list with the same
    keys in another order or with repetitions, as the list of injected
    fields has after several runs, gives the same record. *)
Theorem post_cleanup_idempotent (keys : list string) info :
  let cleaned := (PostCleanupPP_run keys info).2 in
  PostCleanupPP_run keys cleaned = ([], cleaned)
  ∧ ∀ keys' : list string,
      (∀ key, key ∈ keys' ↔ key ∈ keys) →
      PostCleanupPP_run keys' info = ([], cleaned).
Proof.
  intros cleaned. subst cleaned. unfold PostCleanupPP_run. simpl. split.
  - f_equal. apply map_eq. intros key. rewrite !foldl_delete_lookup.
    by case_bool_decide.
  - intros keys' Hsame. f_equal. apply map_eq. intros key.
    rewrite !foldl_delete_lookup.
    by rewrite (bool_decide_ext _ _ (Hsame key)).
Qed.

(** X13. An item whose channel the document does not map passes
    through a correctly registered plugin: with the placeholder in the
    template, a supported stage, no file path yet and a mapping document
    without a mapping for the channel, [run] returns the record with
    ["mapped_channel"] set to the channel name, prints the notice,
    records the name and schedules the cleanup step; paths and file
    system are left alone. *)
Theorem run_unmapped_channel info st :
  let original_channel := default (VStr "") (info !! "channel") in
  is_mapping_used st = true →
  declared_stage (default [] (postprocessors st)) ∈ supported_pp_positions →
  truthy (default (VBool false) (info !! "filepath")) = false →
  is_mapping_document (_mapping st) = true →
  hashable original_channel = true →
  document_maps original_channel (_mapping st) = false →
  run info st
  = (inr ([], <["mapped_channel" := original_channel]> info),
     add_post_processor PostCleanupPP "after_video"
       (append_mapped_field "mapped_channel"
          (print (to_screen original_channel original_channel) st))).
Proof.
  intros original_channel Hgate Hstage Hpath Hdoc Hv Hmiss.
  unfold run, bind, gets, try_except, modify, ret. rewrite Hgate. simpl.
  unfold guarded_processing, bind. rewrite check_pp_position_declared.
  rewrite bool_decide_eq_true_2 by done.
  unfold main_processing. rewrite Hpath. simpl.
  unfold mapping_before_download, bind, lift, gets, modify, ret. fold original_channel.
  rewrite (find_category_miss _ _ original_channel Hdoc Hv Hmiss). reflexivity.
Qed.

(** X14. Configuration errors are silent.  With the placeholder in the
    template, a plugin at an unsupported stage, or an item that already
    has a file path, makes [run] return the record as it was with an
    empty deletion list; the only effect is the scheduled cleanup step:
    nothing is printed, no path is changed, nothing is injected. *)
Theorem run_discards_configuration_errors info st :
  is_mapping_used st = true →
  declared_stage (default [] (postprocessors st)) ∉ supported_pp_positions
  ∨ truthy (default (VBool false) (info !! "filepath")) = true →
  run info st
  = (inr ([], info), add_post_processor PostCleanupPP "after_video" st).
Proof.
  intros Hgate Herr.
  unfold run, bind, gets, try_except, modify, ret. rewrite Hgate. simpl.
  unfold guarded_processing, bind. rewrite check_pp_position_declared.
  case_bool_decide as Hstage; [|done].
  destruct Herr as [Hbad|Hpath]; [done|].
  unfold main_processing. by rewrite Hpath.
Qed.

End run_outcomes.

Lemma run_cleanup_spares_other_keys_witness :
  let st' := (run Examples.lecture Scenarios.used_host).2 in
  Forall (λ name, String.prefix "mapped_" name = true) (mapped_fields st')
  ∧ ∀ (record : information) key,
      String.prefix "mapped_" key = false →
      (PostCleanupPP_run (mapped_fields st') record).2 !! key = record !! key.
Proof.
  apply run_cleanup_spares_other_keys. apply Forall_singleton. reflexivity.
Defined.

Lemma run_then_cleanup_witness :
  ∃ cleaned,
    run_post_processor PostCleanupPP
      (<["mapped_channel" := VStr "OCW - MIT"]> Examples.lecture)
      (run Examples.lecture Examples.host).2
    = (inr ([], cleaned), (run Examples.lecture Examples.host).2)
    ∧ ∀ key, cleaned !! key
             = if bool_decide (key ∈ mapped_fields (run Examples.lecture Examples.host).2)
               then None else Examples.lecture !! key.
Proof.
  exact (run_then_cleanup Examples.host Examples.lecture []
           (<["mapped_channel" := VStr "OCW - MIT"]> Examples.lecture)
           (run Examples.lecture Examples.host).2 eq_refl).
Defined.

Lemma run_unmapped_channel_witness :
  run Examples.video Examples.host
  = (inr ([], <["mapped_channel" := VStr "Numberphile"]> Examples.video),
     add_post_processor PostCleanupPP "after_video"
       (append_mapped_field "mapped_channel"
          (print (to_screen (VStr "Numberphile") (VStr "Numberphile")) Examples.host))).
Proof.
  apply (run_unmapped_channel Examples.video Examples.host); try reflexivity.
  apply elem_of_cons. by left.
Defined.

Lemma run_discards_configuration_errors_witness :
  run Examples.video Examples.late_host
  = (inr ([], Examples.video),
     add_post_processor PostCleanupPP "after_video" Examples.late_host).
Proof.
  apply run_discards_configuration_errors; [reflexivity|].
  left. vm_compute. intros Hin.
  repeat (apply elem_of_cons in Hin as [Heq|Hin]; [discriminate Heq|]).
  by apply not_elem_of_nil in Hin.
Defined.

(** ** Further properties of the path rewriter under the contracts *)

Section rewriter_contract.
Context {P : Platform} {L : PlatformLaws P}.
Implicit Types (st : state).

(** X15. After [change_path] has returned for a category that names a
    directory of the kind, that directory exists and the host's path of
    the kind is the path the name resolves to. *)
Theorem change_path_ensures_directory category dir_type location st st' :
  get category (VStr dir_type) (VStr "") = inr (VStr location) →
  location ≠ "" →
  change_path category dir_type st = (inr (), st') →
  ∃ ps, paths st' = Some ps
        ∧ ps !! dir_type = Some (realpath (filesystem st') location)
        ∧ isdir (filesystem st') (realpath (filesystem st') location) = true.
Proof.
  intros Hget Hne
    [(w & Hget' & Hw & _)|(location' & s' & ps & Hget' & _ & Hmk & Hps & ->)]
    %change_path_success.
  - rewrite Hget in Hget'. injection Hget' as <-. simpl in Hw.
    by rewrite bool_decide_eq_false_2 in Hw.
  - rewrite Hget in Hget'. injection Hget' as <-.
    exists (<[dir_type := realpath (filesystem st) location]> ps). simpl.
    rewrite (realpath_makedirs _ _ _ Hmk).
    split_and!; [done|apply lookup_insert_eq|by eapply makedirs_creates].
Qed.

End rewriter_contract.

Lemma change_path_ensures_directory_witness :
  ∃ ps, paths (change_path Examples.first_category "home" Examples.host).2 = Some ps
        ∧ ps !! "home" = Some "/media/lectures"
        ∧ ListFS.is_dir (filesystem (change_path Examples.first_category "home"
                                       Examples.host).2)
            "/media/lectures" = true.
Proof.
  exact (change_path_ensures_directory (L := ListFS_laws)
           Examples.first_category "home" "/media/lectures" Examples.host
           (change_path Examples.first_category "home" Examples.host).2
           eq_refl ltac:(discriminate) eq_refl).
Defined.

(** ** Further properties of the configuration loader *)

Section loader.
Context {P : Platform}.
Implicit Types (st : state).

(** X16. A mapping file that exists is only read: [load_mapping]
    returns what the format of its extension parses from the file, or
    the error of the type check, of the read or of the parse, and the
    state, file system and output included, is as before. *)
Theorem load_mapping_existing config_path st :
  path_exists (filesystem st) config_path = true →
  load_mapping config_path st
  = (file_type ← check_config_type config_path;
     content ← read_file (filesystem st) config_path;
     load file_type content,
     st).
Proof.
  intros Hexists. unfold load_mapping, _load_file, bind, lift, gets, ret.
  rewrite Hexists. simpl.
  destruct (check_config_type config_path) as [e|file_type]; [done|]. simpl.
  destruct (read_file (filesystem st) config_path) as [e|content]; [done|]. simpl.
  by destruct (load file_type content).
Qed.

(** X17. A path whose extension is not [.json], nor [.yaml] or [.yml]
    with the YAML module at hand, is rejected, in two ways.  If the file
    exists, the [ValueError] naming the extension is raised and nothing
    changes.  If it does not, the directory is created first, and the
    same error comes wrapped in the [IOError] of a failed write; no file
    is written and no warning printed. *)
Theorem load_mapping_unsupported_type config_path st :
  splitext_lower config_path ≠ ".json" →
  splitext_lower config_path ∉ [".yaml"; ".yml"] ∨ yaml_available = false →
  let unsupported :=
    ValueError ("Unsupported file type: " +:+ splitext_lower config_path) in
  (path_exists (filesystem st) config_path = true →
   load_mapping config_path st = (inl unsupported, st))
  ∧ ∀ s1,
      path_exists (filesystem st) config_path = false →
      makedirs (filesystem st) (dirname config_path) = inr s1 →
      load_mapping config_path st
      = (inl (IOError ("Can't write mapping file: " +:+ config_path) unsupported),
         set_filesystem s1 st).
Proof.
  intros Hjson Hyaml unsupported.
  assert (Htype : check_config_type config_path = inl unsupported).
  { unfold check_config_type.
    rewrite bool_decide_eq_false_2 by (by intros Heq%list_elem_of_singleton).
    destruct Hyaml as [Hext| ->].
    - by rewrite bool_decide_eq_false_2.
    - by rewrite andb_false_r. }
  split.
  - intros Hexists. unfold load_mapping, bind, gets, ret, lift.
    rewrite Hexists, Htype. done.
  - intros s1 Hnew Hmk.
    unfold load_mapping, write_mapping_template, bind, lift, gets, modify, ret,
      try_except, raise.
    rewrite Htype, Hnew. simpl. rewrite Hmk. done.
Qed.

(** X18. When the template cannot be put in place, [load_mapping]
    raises and prints no warning: the error of a failed directory
    creation is raised as it is, the error of a failed write is raised
    wrapped in an [IOError] naming the path. *)
Theorem load_mapping_io_failure config_path st :
  path_exists (filesystem st) config_path = false →
  (∀ e, makedirs (filesystem st) (dirname config_path) = inl e →
        (load_mapping config_path st).1 = inl e
        ∧ printed (load_mapping config_path st).2 = printed st)
  ∧ ∀ s1 file_type e,
      makedirs (filesystem st) (dirname config_path) = inr s1 →
      check_config_type config_path = inr file_type →
      write_file s1 config_path (dump file_type MAPPING_CONFIG_TEMPLATE 4) = inl e →
      (load_mapping config_path st).1
      = inl (IOError ("Can't write mapping file: " +:+ config_path) e)
      ∧ printed (load_mapping config_path st).2 = printed st.
Proof.
  intros Hnew. split.
  - intros e Hmk.
    unfold load_mapping, write_mapping_template, bind, lift, gets, modify, ret.
    rewrite Hnew. simpl. by rewrite Hmk.
  - intros s1 file_type e Hmk Htype Hwrite.
    unfold load_mapping, write_mapping_template, _save_file, bind, lift, gets,
      modify, ret, try_except, raise.
    rewrite Htype, Hnew. simpl. rewrite Hmk. simpl. by rewrite Hwrite.
Qed.

(** X19. Constructed without a [config] option, the plugin cannot come
    into being: the empty path is not normalised, nothing exists at it
    and it has no extension, so the constructor raises, either the error
    of the directory creation or the [IOError] of the unsupported empty
    extension, and neither a mapping nor the list is set. *)
Theorem init_without_config st :
  path_exists (filesystem st) "" = false →
  splitext_lower "" = "" →
  ∃ e st', __init__ None st = (inl e, st')
           ∧ _mapping st' = _mapping st
           ∧ mapped_fields st' = mapped_fields st
           ∧ printed st' = printed st.
Proof.
  intros Hnew Hext.
  assert (Htype : check_config_type ""
                  = inl (ValueError ("Unsupported file type: " +:+ ""))).
  { unfold check_config_type. rewrite Hext. done. }
  unfold __init__, _normalize_path, bind, modify. simpl.
  unfold load_mapping, write_mapping_template, bind, lift, gets, modify, ret,
    try_except, raise.
  rewrite Htype, Hnew. simpl.
  destruct (makedirs (filesystem st) (dirname "")) as [e|s1]; simpl;
    eexists _, _; split; reflexivity || done.
Qed.

(** X20. Constructed on a path at which a file of a supported format
    exists and parses, the plugin takes the parsed document as its
    mapping and starts with an empty list of injected fields; the file
    system is not touched and nothing is printed. *)
Theorem init_loads_existing_file config file_type content mapping st :
  let config_path := _normalize_path config in
  path_exists (filesystem st) config_path = true →
  check_config_type config_path = inr file_type →
  read_file (filesystem st) config_path = inr content →
  load file_type content = inr mapping →
  __init__ (Some config) st = (inr (), set_instance mapping [] st).
Proof.
  intros config_path Hexists Htype Hread Hload.
  unfold __init__, bind, modify. simpl. fold config_path.
  unfold load_mapping, _load_file, bind, lift, gets, ret.
  rewrite Htype, Hexists. simpl. rewrite Hread. simpl. by rewrite Hload.
Qed.

End loader.

Lemma load_mapping_existing_witness :
  load_mapping "/etc/mapping.yaml" Scenarios.configured_host
  = (inr Examples.two_categories, Scenarios.configured_host).
Proof. exact (load_mapping_existing "/etc/mapping.yaml" Scenarios.configured_host eq_refl). Defined.

Lemma load_mapping_unsupported_type_witness :
  load_mapping "/etc/yt-dlp/mapping.txt" Examples.host
  = (inl (IOError "Can't write mapping file: /etc/yt-dlp/mapping.txt"
            (ValueError "Unsupported file type: .txt")),
     set_filesystem (P := ListFS.platform) (ListFS.FS ["/etc/yt-dlp"; "/"] [])
       Examples.host).
Proof.
  apply (load_mapping_unsupported_type "/etc/yt-dlp/mapping.txt" Examples.host).
  - discriminate.
  - left. vm_compute. intros Hin.
    repeat (apply elem_of_cons in Hin as [Heq|Hin]; [discriminate Heq|]).
    by apply not_elem_of_nil in Hin.
  - reflexivity.
  - reflexivity.
Defined.

Lemma load_mapping_io_failure_witness :
  (load_mapping "mapping.json" Examples.host).1 = inl (OSError "")
  ∧ printed (load_mapping "mapping.json" Examples.host).2 = [].
Proof.
  apply (proj1 (load_mapping_io_failure "mapping.json" Examples.host eq_refl)).
  reflexivity.
Defined.

Lemma init_without_config_witness :
  ∃ e st', __init__ None Examples.host = (inl e, st')
           ∧ _mapping st' = Examples.two_categories
           ∧ mapped_fields st' = []
           ∧ printed st' = [].
Proof. exact (init_without_config Examples.host eq_refl eq_refl). Defined.

Lemma init_loads_existing_file_witness :
  __init__ (Some "/etc/mapping.yaml") Scenarios.configured_host
  = (inr (), set_instance Examples.two_categories [] Scenarios.configured_host).
Proof.
  exact (init_loads_existing_file (P := ListFS.platform) "/etc/mapping.yaml" YAML
           (YAML, Examples.two_categories) Examples.two_categories
           Scenarios.configured_host eq_refl eq_refl eq_refl eq_refl).
Defined.

Lemma init_creates_template_witness :
  ∃ st', __init__ (Some "~/yt-dlp/mapping.json") Examples.host = (inr (), st')
         ∧ _mapping st' = MAPPING_CONFIG_TEMPLATE ∧ mapped_fields st' = [].
Proof.
  exact (init_creates_template (P := ListFS.platform) (L := ListFS_laws)
           "~/yt-dlp/mapping.json" JSON
           Examples.host
           (ListFS.FS ["/home/user/yt-dlp"; "/"] [])
           (ListFS.FS ["/home/user/yt-dlp"; "/"]
              [("/home/user/yt-dlp/mapping.json", (JSON, MAPPING_CONFIG_TEMPLATE))])
           MAPPING_CONFIG_TEMPLATE eq_refl eq_refl eq_refl eq_refl eq_refl).
Defined.

(** ** Saving and loading, and the two paths of a category *)

Section save_and_load.
Context {P : Platform} {L : PlatformLaws P}.
Implicit Types (st : state).

(** X23. What was saved is what is loaded: after a [_save_file] that
    succeeded, [_load_file] of the same path and format returns what the
    format parses from its own dump of the data, and loading changes
    nothing further. *)
Theorem save_then_load data file_path file_type st s' :
  write_file (filesystem st) file_path (dump file_type data 4) = inr s' →
  (_save_file data file_path file_type;; _load_file file_path file_type) st
  = (load file_type (dump file_type data 4), set_filesystem s' st).
Proof.
  intros Hwrite. pose proof (read_write_file _ _ _ _ Hwrite) as Hread.
  unfold _save_file, _load_file, bind, lift, gets, modify.
  rewrite Hwrite. simpl. rewrite Hread. by destruct (load file_type _).
Qed.

(** X24. A category that names both directories sets both paths: when
    the rewrites for [home] and for [temp] have returned, the host's
    [home] path is what the category's [home] resolved to at the first
    call and its [temp] path what [temp] resolved to at the second; the
    second rewrite does not disturb the first. *)
Theorem change_path_home_and_temp category home temp st st1 st2 :
  get category (VStr "home") (VStr "") = inr (VStr home) → home ≠ "" →
  get category (VStr "temp") (VStr "") = inr (VStr temp) → temp ≠ "" →
  change_path category "home" st = (inr (), st1) →
  change_path category "temp" st1 = (inr (), st2) →
  ∃ ps, paths st2 = Some ps
        ∧ ps !! "home" = Some (realpath (filesystem st) home)
        ∧ ps !! "temp" = Some (realpath (filesystem st1) temp).
Proof.
  intros Hhome Hh Htemp Ht
    [(w & Hget & Hw & _)|(home' & s1 & ps1 & Hget & _ & _ & _ & ->)]%change_path_success.
  { rewrite Hhome in Hget. injection Hget as <-. simpl in Hw.
    by rewrite bool_decide_eq_false_2 in Hw. }
  rewrite Hhome in Hget. injection Hget as <-.
  intros [(w & Hget & Hw & _)|(temp' & s2 & ps2 & Hget & _ & _ & Hps & ->)]
    %change_path_success.
  { rewrite Htemp in Hget. injection Hget as <-. simpl in Hw.
    by rewrite bool_decide_eq_false_2 in Hw. }
  rewrite Htemp in Hget. injection Hget as <-.
  simpl in Hps. injection Hps as <-.
  eexists. split; [reflexivity|]. split.
  - rewrite lookup_insert_ne by done. apply lookup_insert_eq.
  - apply lookup_insert_eq.
Qed.

End save_and_load.

Lemma save_then_load_witness :
  (_save_file Examples.two_categories "/mapping.yml" YAML;;
   _load_file "/mapping.yml" YAML) Examples.host
  = (inr Examples.two_categories,
     set_filesystem (P := ListFS.platform)
       (ListFS.FS ["/"] [("/mapping.yml", (YAML, Examples.two_categories))])
       Examples.host).
Proof.
  exact (save_then_load (P := ListFS.platform) (L := ListFS_laws)
           Examples.two_categories "/mapping.yml" YAML Examples.host
           (ListFS.FS ["/"] [("/mapping.yml", (YAML, Examples.two_categories))])
           eq_refl).
Defined.

Lemma change_path_home_and_temp_witness :
  ∃ ps, paths (change_path Scenarios.template_category "temp"
                 (change_path Scenarios.template_category "home"
                    Examples.host).2).2 = Some ps
        ∧ ps !! "home" = Some "/cwd/<TARGET LOCATION>"
        ∧ ps !! "temp" = Some "/cwd/<TEMP LOCATION>".
Proof.
  exact (change_path_home_and_temp (P := ListFS.platform)
           Scenarios.template_category "<TARGET LOCATION>" "<TEMP LOCATION>"
           Examples.host
           (change_path Scenarios.template_category "home" Examples.host).2
           (change_path Scenarios.template_category "temp"
              (change_path Scenarios.template_category "home" Examples.host).2).2
           eq_refl ltac:(discriminate) eq_refl ltac:(discriminate) eq_refl eq_refl).
Defined.
